(** * Call signaling and call state of the LiaoTian client

    A shallow embedding of the two variants of the [Calls] component:

    - [Signaling]: src/components/Calls.tsx, which negotiates over a
      Supabase Realtime channel and drives an [RTCPeerConnection] itself;
    - [PeerJS]: the PeerJS based variant of the same component.

    Further down come the sign-in form ([Auth]), the list of conversations
    and the sending of a message ([Messages]) and the list of groups
    ([Groups]), embedded in the same way.

    A React handler is embedded as a function from the component state
    (the [useState] cells and the [useRef] cells) to the next state and the
    list of calls it makes on the outside world, in program order.  What
    the browser answers ([getUserMedia], [createOffer], [createAnswer]) is
    an argument of the handler.  A call that throws ends the handler: the
    cells written before it keep their values and the statements after it
    do not run.  [startCall] and [answerCall] wait for [getUserMedia];
    each is embedded twice, as the whole handler with nothing happening in
    between, and as the part that resumes after the wait when other
    handlers have run meanwhile.  Promises of the peer connection are
    taken to resolve. *)

From Stdlib Require Import String List Bool Ascii NArith ZArith Permutation Lia.
Import ListNotations.
Open Scope string_scope.
Open Scope list_scope.

(** ** Data shared by both variants *)

(** [Profile] of lib/supabase, with the fields the component reads. *)
Record Profile := mkProfile {
  id : string;
  username : string;
  display_name : string;
  avatar_url : string;
  verified : bool
}.

(** ['audio' | 'video'] *)
Inductive CallType := audio | video.

Definition isVideo (type : option CallType) : bool :=
  match type with Some video => true | _ => false end.

(** A [MediaStreamTrack]: its kind and its [enabled] flag. *)
Record MediaStreamTrack := mkTrack {
  label : string;
  kind : CallType;
  enabled : bool
}.

Record MediaStream := mkStream { getTracks : list MediaStreamTrack }.

Definition isAudioTrack (t : MediaStreamTrack) : bool :=
  match kind t with audio => true | video => false end.

Definition isVideoTrack (t : MediaStreamTrack) : bool :=
  match kind t with video => true | audio => false end.

Definition getAudioTracks (s : MediaStream) : list MediaStreamTrack :=
  filter isAudioTrack (getTracks s).

Definition getVideoTracks (s : MediaStream) : list MediaStreamTrack :=
  filter isVideoTrack (getTracks s).

(** [track.enabled = !track.enabled] *)
Definition flipTrack (t : MediaStreamTrack) : MediaStreamTrack :=
  {| label := label t; kind := kind t; enabled := negb (enabled t) |}.

(** [stream.getAudioTracks().forEach(track => track.enabled = !track.enabled)]:
    the tracks are objects of the stream, so the stream sees the flips. *)
Definition flipAudio (s : MediaStream) : MediaStream :=
  {| getTracks :=
       map (fun t => if isAudioTrack t then flipTrack t else t) (getTracks s) |}.

Definition flipVideo (s : MediaStream) : MediaStream :=
  {| getTracks :=
       map (fun t => if isVideoTrack t then flipTrack t else t) (getTracks s) |}.

(** What [navigator.mediaDevices.getUserMedia] answers: a stream, or an
    exception of which the code reads [err.name]. *)
Inductive MediaResult :=
| MediaOk (stream : MediaStream)
| MediaErr (name : string).

Inductive RTCSessionDescriptionInit := Sdp (s : string).
Inductive RTCIceCandidateInit := Ice (s : string).

Definition isSome {A : Type} (o : option A) : bool :=
  match o with Some _ => true | None => false end.

(** [t'] is [t] with [enabled] negated when [t] is of the kind [p] picks,
    and [t] itself otherwise. *)
Definition flippedIf (p : MediaStreamTrack -> bool)
    (t t' : MediaStreamTrack) : Prop :=
  label t' = label t /\ kind t' = kind t
  /\ enabled t' = (if p t then negb (enabled t) else enabled t).

(** The mute flag tells the truth about the stream: every audio track is
    enabled exactly when the flag is off. *)
Definition mutedAgrees (muted : bool) (s : option MediaStream) : Prop :=
  forall stream t,
    s = Some stream -> In t (getAudioTracks stream) -> enabled t = negb muted.

(** ** Variant 1: signaling over the Supabase channel (Calls.tsx) *)

Module Signaling.

(** [type CallPayload] *)
Record CallPayload := mkPayload {
  pl_from : Profile;
  pl_to : option Profile;
  pl_offer : option RTCSessionDescriptionInit;
  pl_answer : option RTCSessionDescriptionInit;
  pl_candidate : option RTCIceCandidateInit;
  pl_type : option CallType
}.

(** The value of the [callInProgress] cell.  [ci_type] is optional because
    [answerCall] stores [incomingCall.type!], which a payload may lack. *)
Record CallInfo := mkCallInfo {
  ci_with : Profile;
  ci_type : option CallType;
  ci_isCaller : bool
}.

(** What the component knows of an [RTCPeerConnection] it created: the
    peer its [onicecandidate] callback addresses. *)
Record PeerConnection := mkPc { pc_target : Profile }.

Inductive SignalEvent := call_offer | call_answer | ice_candidate | hang_up.

(** Calls on the outside world.  [Broadcast event payload] is the call
    [callChannelRef.current.broadcast({ event, payload })].  The ref holds
    a [RealtimeChannel] of supabase-js, which has a method [send] and none
    called [broadcast]: the call throws a TypeError, nothing goes out on
    the channel, and the handler that made the call ends there. *)
Inductive Effect :=
| Broadcast (event : SignalEvent) (payload : CallPayload)
| NewPeerConnection (targetUser : Profile)
| AddTrack (t : MediaStreamTrack)
| SetLocalDescription (d : RTCSessionDescriptionInit)
| SetRemoteDescription (d : option RTCSessionDescriptionInit)
| AddIceCandidate (c : option RTCIceCandidateInit)
| ClosePeerConnection
| StopTrack (t : MediaStreamTrack).

Record State := mkState {
  user : option Profile;
  incomingCall : option CallPayload;
  callInProgress : option CallInfo;
  localStream : option MediaStream;
  remoteStream : option MediaStream;
  isMuted : bool;
  isCamOff : bool;
  pcRef : option PeerConnection;
  callChannelRef : bool
}.

Definition setIncomingCall (v : option CallPayload) (st : State) : State :=
  mkState (user st) v (callInProgress st) (localStream st) (remoteStream st)
          (isMuted st) (isCamOff st) (pcRef st) (callChannelRef st).

Definition setCallInProgress (v : option CallInfo) (st : State) : State :=
  mkState (user st) (incomingCall st) v (localStream st) (remoteStream st)
          (isMuted st) (isCamOff st) (pcRef st) (callChannelRef st).

Definition setLocalStream (v : option MediaStream) (st : State) : State :=
  mkState (user st) (incomingCall st) (callInProgress st) v (remoteStream st)
          (isMuted st) (isCamOff st) (pcRef st) (callChannelRef st).

Definition setRemoteStream (v : option MediaStream) (st : State) : State :=
  mkState (user st) (incomingCall st) (callInProgress st) (localStream st) v
          (isMuted st) (isCamOff st) (pcRef st) (callChannelRef st).

Definition setIsMuted (v : bool) (st : State) : State :=
  mkState (user st) (incomingCall st) (callInProgress st) (localStream st)
          (remoteStream st) v (isCamOff st) (pcRef st) (callChannelRef st).

Definition setIsCamOff (v : bool) (st : State) : State :=
  mkState (user st) (incomingCall st) (callInProgress st) (localStream st)
          (remoteStream st) (isMuted st) v (pcRef st) (callChannelRef st).

Definition setPcRef (v : option PeerConnection) (st : State) : State :=
  mkState (user st) (incomingCall st) (callInProgress st) (localStream st)
          (remoteStream st) (isMuted st) (isCamOff st) v (callChannelRef st).

(** The component after its first render and effects: the channel
    [call:<user.id>] exists as soon as there is a user. *)
Definition mount (u : option Profile) : State :=
  mkState u None None None None false false None (isSome u).

(** [callChannelRef.current?.broadcast({ event, payload })]: no call on a
    null ref, and otherwise the call that throws. *)
Definition broadcast (event : SignalEvent) (payload : CallPayload)
    (st : State) : list Effect :=
  if callChannelRef st then [Broadcast event payload] else [].

(** 1. [getMedia]: a failure is logged and changes nothing. *)
Definition getMedia (type : option CallType) (media : MediaResult)
    (st : State) : State * option MediaStream :=
  match media with
  | MediaOk stream =>
      let st1 := setLocalStream (Some stream) st in
      let st2 := if isVideo type then setIsCamOff false st1 else st1 in
      (setIsMuted false st2, Some stream)
  | MediaErr _ => (st, None)
  end.

Definition stopTracks (s : option MediaStream) : list Effect :=
  match s with
  | Some stream => map StopTrack (getTracks stream)
  | None => []
  end.

(** 2. [cleanupCall] *)
Definition cleanupCall (st : State) : State * list Effect :=
  (mkState (user st) None None None None false false None (callChannelRef st),
   (if isSome (pcRef st) then [ClosePeerConnection] else [])
     ++ stopTracks (localStream st) ++ stopTracks (remoteStream st)).

(** [cleanupCall] as a handler that started earlier closed over it: the
    streams whose tracks it stops are those of that time, the ref is read
    when it runs. *)
Definition cleanupWith (ls rs : option MediaStream) (st : State)
    : State * list Effect :=
  (mkState (user st) None None None None false false None (callChannelRef st),
   (if isSome (pcRef st) then [ClosePeerConnection] else [])
     ++ stopTracks ls ++ stopTracks rs).

(** 3. [setupPeerConnection] *)
Definition setupPeerConnection (stream : MediaStream) (targetUser : Profile)
    (st : State) : State * list Effect :=
  (setPcRef (Some (mkPc targetUser)) st,
   NewPeerConnection targetUser :: map AddTrack (getTracks stream)).

(** 4. [handleHangUp]: when the [broadcast] call is made it throws, and
    [cleanupCall] on the line after it is not reached. *)
Definition handleHangUp (doBroadcast : bool) (st : State)
    : State * list Effect :=
  match doBroadcast, callInProgress st, user st with
  | true, Some c, Some u =>
      if callChannelRef st
      then (st, broadcast hang_up
                  (mkPayload u (Some (ci_with c)) None None None None) st)
      else cleanupCall st
  | _, _, _ => cleanupCall st
  end.

(** 5. [startCall].  The [broadcast] call is its last statement. *)
Definition startCall (targetUser : Profile) (type : CallType)
    (media : MediaResult) (offer : RTCSessionDescriptionInit) (st : State)
    : State * list Effect :=
  match user st, callInProgress st with
  | Some u, None =>
      match getMedia (Some type) media st with
      | (st1, None) => (st1, [])
      | (st1, Some stream) =>
          let st2 :=
            setCallInProgress (Some (mkCallInfo targetUser (Some type) true)) st1 in
          let (st3, eff) := setupPeerConnection stream targetUser st2 in
          (st3,
           eff ++ [SetLocalDescription offer]
               ++ broadcast call_offer
                    (mkPayload u (Some targetUser) (Some offer) None None
                               (Some type)) st3)
      end
  | _, _ => (st, [])
  end.

(** [startCall] from [await getMedia] on, when other handlers have run
    since the guard at its head let it pass: the guard is not read again. *)
Definition startCallResumed (targetUser : Profile) (type : CallType)
    (media : MediaResult) (offer : RTCSessionDescriptionInit) (st : State)
    : State * list Effect :=
  match user st with
  | Some u =>
      match getMedia (Some type) media st with
      | (st1, None) => (st1, [])
      | (st1, Some stream) =>
          let st2 :=
            setCallInProgress (Some (mkCallInfo targetUser (Some type) true)) st1 in
          let (st3, eff) := setupPeerConnection stream targetUser st2 in
          (st3,
           eff ++ [SetLocalDescription offer]
               ++ broadcast call_offer
                    (mkPayload u (Some targetUser) (Some offer) None None
                               (Some type)) st3)
      end
  | None => (st, [])
  end.

(** [answerCall] once it has the stream: the [broadcast] call throws, so
    [setIncomingCall(null)] after it is reached only without a channel. *)
Definition answerWith (inc : CallPayload) (u : Profile) (stream : MediaStream)
    (answer : RTCSessionDescriptionInit) (st1 : State) : State * list Effect :=
  let st2 :=
    setCallInProgress (Some (mkCallInfo (pl_from inc) (pl_type inc) false)) st1 in
  let (st3, eff) := setupPeerConnection stream (pl_from inc) st2 in
  (if callChannelRef st3 then st3 else setIncomingCall None st3,
   eff ++ [SetRemoteDescription (pl_offer inc); SetLocalDescription answer]
       ++ broadcast call_answer
            (mkPayload u (Some (pl_from inc)) None (Some answer) None None) st3).

(** 6. [answerCall] *)
Definition answerCall (media : MediaResult)
    (answer : RTCSessionDescriptionInit) (st : State) : State * list Effect :=
  match incomingCall st, user st with
  | Some inc, Some u =>
      match getMedia (pl_type inc) media st with
      | (st1, None) => handleHangUp true st1
      | (st1, Some stream) => answerWith inc u stream answer st1
      end
  | _, _ => (st, [])
  end.

(** [answerCall] from [await getMedia] on, when other handlers have run
    since it started.  [inc] is the ringing call it closed over, and
    [cip], [ls] and [rs] are the call in progress and the streams that its
    [handleHangUp] and [cleanupCall] closed over. *)
Definition answerCallResumed (inc : CallPayload) (cip : option CallInfo)
    (ls rs : option MediaStream) (media : MediaResult)
    (answer : RTCSessionDescriptionInit) (st : State) : State * list Effect :=
  match user st with
  | Some u =>
      match getMedia (pl_type inc) media st with
      | (st1, None) =>
          match cip with
          | Some c =>
              if callChannelRef st1
              then (st1, broadcast hang_up
                           (mkPayload u (Some (ci_with c)) None None None None)
                           st1)
              else cleanupWith ls rs st1
          | None => cleanupWith ls rs st1
          end
      | (st1, Some stream) => answerWith inc u stream answer st1
      end
  | None => (st, [])
  end.

(** 7. [denyCall]: when the [broadcast] call is made it throws, and
    [setIncomingCall(null)] after it is not reached. *)
Definition denyCall (st : State) : State * list Effect :=
  match incomingCall st, user st with
  | Some inc, Some u =>
      if callChannelRef st
      then (st, broadcast hang_up
                  (mkPayload u (Some (pl_from inc)) None None None None) st)
      else (setIncomingCall None st, [])
  | _, _ => (setIncomingCall None st, [])
  end.

(** [payload.to?.id === user.id] *)
Definition toMe (u : Profile) (payload : CallPayload) : bool :=
  match pl_to payload with
  | Some t => String.eqb (id t) (id u)
  | None => false
  end.

(** The four listeners of the channel.  They are registered by an effect
    that returns early without a user, so none runs then. *)
Definition onCallOffer (payload : CallPayload) (st : State)
    : State * list Effect :=
  match user st with
  | Some u =>
      if toMe u payload && negb (isSome (callInProgress st))
           && negb (isSome (incomingCall st))
      then (setIncomingCall (Some payload) st, [])
      else (st, [])
  | None => (st, [])
  end.

Definition isCallerOf (c : option CallInfo) : bool :=
  match c with Some ci => ci_isCaller ci | None => false end.

Definition onCallAnswer (payload : CallPayload) (st : State)
    : State * list Effect :=
  match user st with
  | Some u =>
      if toMe u payload && isSome (callInProgress st)
           && isCallerOf (callInProgress st)
      then (st, if isSome (pcRef st)
                then [SetRemoteDescription (pl_answer payload)] else [])
      else (st, [])
  | None => (st, [])
  end.

Definition onIceCandidate (payload : CallPayload) (st : State)
    : State * list Effect :=
  match user st with
  | Some u =>
      if toMe u payload && isSome (callInProgress st)
      then (st, if isSome (pcRef st)
                then [AddIceCandidate (pl_candidate payload)] else [])
      else (st, [])
  | None => (st, [])
  end.

(** [callInProgress && payload.from.id === callInProgress.with.id] *)
Definition fromCallPeer (payload : CallPayload) (st : State) : bool :=
  match callInProgress st with
  | Some c => String.eqb (id (pl_from payload)) (id (ci_with c))
  | None => false
  end.

(** [incomingCall && payload.from.id === incomingCall.from.id] *)
Definition fromIncomingCaller (payload : CallPayload) (st : State) : bool :=
  match incomingCall st with
  | Some inc => String.eqb (id (pl_from payload)) (id (pl_from inc))
  | None => false
  end.

(** The second test reads the [incomingCall] the listener closed over,
    that is the one of [st], whatever the first branch did. *)
Definition onHangUp (payload : CallPayload) (st : State)
    : State * list Effect :=
  match user st with
  | Some _ =>
      let (st1, eff) :=
        if fromCallPeer payload st then handleHangUp false st else (st, []) in
      let st2 :=
        if fromIncomingCaller payload st then setIncomingCall None st1 else st1 in
      (st2, eff)
  | None => (st, [])
  end.

(** [pc.onicecandidate], a callback of each connection, closed over the
    [targetUser] the connection was set up for: a connection that was
    overwritten in [pcRef] and never closed still addresses its own
    target. *)
Definition onicecandidate (pc : PeerConnection)
    (candidate : option RTCIceCandidateInit) (st : State)
    : State * list Effect :=
  match candidate, user st with
  | Some c, Some u =>
      (st, broadcast ice_candidate
             (mkPayload u (Some (pc_target pc)) None None (Some c) None) st)
  | _, _ => (st, [])
  end.

(** [pc.ontrack], taken for the connection held in [pcRef]. *)
Definition ontrack (stream : MediaStream) (st : State) : State * list Effect :=
  match pcRef st with
  | Some _ => (setRemoteStream (Some stream) st, [])
  | None => (st, [])
  end.

(** Media toggles *)
Definition toggleMute (st : State) : State * list Effect :=
  let st1 := setLocalStream (option_map flipAudio (localStream st)) st in
  (setIsMuted (negb (isMuted st)) st1, []).

Definition toggleCamera (st : State) : State * list Effect :=
  let st1 := setLocalStream (option_map flipVideo (localStream st)) st in
  (setIsCamOff (negb (isCamOff st)) st1, []).

(** What can happen to the component.  [StartCall] and [AnswerCall] are
    the handlers with nothing happening while they wait for the media;
    [StartCallResumed] and [AnswerCallResumed] are their second parts,
    for a wait during which other events came in. *)
Inductive Event :=
| StartCall (targetUser : Profile) (type : CallType) (media : MediaResult)
            (offer : RTCSessionDescriptionInit)
| AnswerCall (media : MediaResult) (answer : RTCSessionDescriptionInit)
| DenyCall
| HangUp
| ToggleMute
| ToggleCamera
| CallOffer (payload : CallPayload)
| CallAnswer (payload : CallPayload)
| IceCandidate (payload : CallPayload)
| RemoteHangUp (payload : CallPayload)
| PcIceCandidate (pc : PeerConnection) (candidate : option RTCIceCandidateInit)
| PcTrack (stream : MediaStream)
| StartCallResumed (targetUser : Profile) (type : CallType)
                   (media : MediaResult) (offer : RTCSessionDescriptionInit)
| AnswerCallResumed (incoming : CallPayload) (cip : option CallInfo)
                    (ls rs : option MediaStream) (media : MediaResult)
                    (answer : RTCSessionDescriptionInit).

Definition step (st : State) (ev : Event) : State * list Effect :=
  match ev with
  | StartCall targetUser type media offer =>
      startCall targetUser type media offer st
  | AnswerCall media answer => answerCall media answer st
  | DenyCall => denyCall st
  | HangUp => handleHangUp true st
  | ToggleMute => toggleMute st
  | ToggleCamera => toggleCamera st
  | CallOffer payload => onCallOffer payload st
  | CallAnswer payload => onCallAnswer payload st
  | IceCandidate payload => onIceCandidate payload st
  | RemoteHangUp payload => onHangUp payload st
  | PcIceCandidate pc candidate => onicecandidate pc candidate st
  | PcTrack stream => ontrack stream st
  | StartCallResumed targetUser type media offer =>
      startCallResumed targetUser type media offer st
  | AnswerCallResumed incoming cip ls rs media answer =>
      answerCallResumed incoming cip ls rs media answer st
  end.

(** A sequence of events, one after the other, with everything it made
    the component do. *)
Fixpoint run (st : State) (evs : list Event) : State * list Effect :=
  match evs with
  | [] => (st, [])
  | ev :: rest =>
      let (st1, eff1) := step st ev in
      let (st2, eff2) := run st1 rest in
      (st2, eff1 ++ eff2)
  end.

(** The mute and camera buttons exist only in the modal of a call in
    progress; every other event can come at any time. *)
Definition offered (st : State) (ev : Event) : bool :=
  match ev with
  | ToggleMute | ToggleCamera => isSome (callInProgress st)
  | _ => true
  end.

Inductive reachable (u : option Profile) : State -> Prop :=
| reach_mount : reachable u (mount u)
| reach_step st ev :
    reachable u st -> offered st ev = true -> reachable u (fst (step st ev)).

(** The candidates a list of effects hands to [addIceCandidate]. *)
Definition handedCandidates (eff : list Effect)
    : list (option RTCIceCandidateInit) :=
  flat_map (fun e => match e with AddIceCandidate c => [c] | _ => [] end) eff.

Fixpoint allOffered (st : State) (evs : list Event) : bool :=
  match evs with
  | [] => true
  | ev :: rest => offered st ev && allOffered (fst (step st ev)) rest
  end.

(** The state [cleanupCall] leaves behind. *)
Definition atRest (st : State) : Prop :=
  localStream st = None /\ remoteStream st = None /\ pcRef st = None
  /\ isMuted st = false /\ isCamOff st = false.

(** What holds of every reachable state: the user never changes, the
    channel exists exactly when there is a user, a call rings only for a
    user, and outside a call in progress no media or connection is held. *)
Definition wellFormed (u : option Profile) (st : State) : Prop :=
  user st = u
  /\ callChannelRef st = isSome u
  /\ (incomingCall st <> None -> u <> None)
  /\ (callInProgress st = None -> atRest st).

(** The cells a call session occupies: at most one of them is filled. *)
Definition oneSession (st : State) : bool :=
  negb (isSome (incomingCall st) && isSome (callInProgress st)).

(** The [broadcast] calls in a list of effects: the payload of each with
    the name of its event. *)
Definition broadcasts (eff : list Effect) : list (SignalEvent * CallPayload) :=
  flat_map (fun e => match e with Broadcast ev p => [(ev, p)] | _ => [] end) eff.

(** A call in progress belongs to a user and comes with a local stream and
    a connection whose candidates go to the peer of the call. *)
Definition holdsCall (u : option Profile) (st : State) : Prop :=
  forall c, callInProgress st = Some c ->
    exists self pc ls,
      u = Some self /\ pcRef st = Some pc /\ pc_target pc = ci_with c
      /\ localStream st = Some ls.

(** [getUserMedia] is asked for audio every time, and a stream it
    resolves with has a track of every kind it was asked for: the streams
    the events of a run bring have an audio track. *)
Definition hasAudioTrack (s : MediaStream) : bool :=
  match getAudioTracks s with [] => false | _ :: _ => true end.

Definition grantsAudio (ev : Event) : bool :=
  match ev with
  | StartCall _ _ (MediaOk s) _ => hasAudioTrack s
  | AnswerCall (MediaOk s) _ => hasAudioTrack s
  | StartCallResumed _ _ (MediaOk s) _ => hasAudioTrack s
  | AnswerCallResumed _ _ _ _ (MediaOk s) _ => hasAudioTrack s
  | _ => true
  end.

End Signaling.

(** ** Variant 2: calls through PeerJS *)

Module PeerJS.

(** [{ from: user, type: type }], the metadata a call is placed with. *)
Record Metadata := mkMetadata {
  md_from : Profile;
  md_type : CallType
}.

(** A [Peer.MediaConnection]: the id of the remote peer and the metadata. *)
Record MediaConnection := mkConnection {
  conn_peer : string;
  metadata : Metadata
}.

(** [type IncomingCall] *)
Record IncomingCall := mkIncoming {
  in_from : Profile;
  in_type : CallType;
  peerCall : MediaConnection
}.

Record CallInfo := mkCallInfo {
  ci_with : Profile;
  ci_type : CallType;
  ci_isCaller : bool
}.

(** Calls on the outside world, as calls made: [PeerCall] is
    [peerRef.current.call], [Answer] and [CloseConnection] are the methods
    [answer] and [close] of a connection object. *)
Inductive Effect :=
| PeerCall (peerId : string) (stream : option MediaStream) (md : Metadata)
| Answer (call : MediaConnection) (stream : option MediaStream)
| CloseConnection (call : MediaConnection)
| StopTrack (t : MediaStreamTrack).

Record State := mkState {
  user : option Profile;
  incomingCall : option IncomingCall;
  callInProgress : option CallInfo;
  localStream : option MediaStream;
  remoteStream : option MediaStream;
  isMuted : bool;
  isCamOff : bool;
  mediaError : option string;
  peerRef : bool;
  activeCallRef : option MediaConnection
}.

Definition setIncomingCall (v : option IncomingCall) (st : State) : State :=
  mkState (user st) v (callInProgress st) (localStream st) (remoteStream st)
          (isMuted st) (isCamOff st) (mediaError st) (peerRef st)
          (activeCallRef st).

Definition setCallInProgress (v : option CallInfo) (st : State) : State :=
  mkState (user st) (incomingCall st) v (localStream st) (remoteStream st)
          (isMuted st) (isCamOff st) (mediaError st) (peerRef st)
          (activeCallRef st).

Definition setLocalStream (v : option MediaStream) (st : State) : State :=
  mkState (user st) (incomingCall st) (callInProgress st) v (remoteStream st)
          (isMuted st) (isCamOff st) (mediaError st) (peerRef st)
          (activeCallRef st).

Definition setIsMuted (v : bool) (st : State) : State :=
  mkState (user st) (incomingCall st) (callInProgress st) (localStream st)
          (remoteStream st) v (isCamOff st) (mediaError st) (peerRef st)
          (activeCallRef st).

Definition setIsCamOff (v : bool) (st : State) : State :=
  mkState (user st) (incomingCall st) (callInProgress st) (localStream st)
          (remoteStream st) (isMuted st) v (mediaError st) (peerRef st)
          (activeCallRef st).

Definition setMediaError (v : option string) (st : State) : State :=
  mkState (user st) (incomingCall st) (callInProgress st) (localStream st)
          (remoteStream st) (isMuted st) (isCamOff st) v (peerRef st)
          (activeCallRef st).

Definition setActiveCallRef (v : option MediaConnection) (st : State) : State :=
  mkState (user st) (incomingCall st) (callInProgress st) (localStream st)
          (remoteStream st) (isMuted st) (isCamOff st) (mediaError st)
          (peerRef st) v.

(** The component once its [Peer] exists. *)
Definition mount (u : option Profile) : State :=
  mkState u None None None None false false None (isSome u) None.

(** The banner [getMedia] chooses from [err.name]. *)
Definition mediaErrorMessage (type : CallType) (name : string) : string :=
  if String.eqb name "NotFoundError" || String.eqb name "DevicesNotFoundError"
  then "No microphone or camera found."
  else if String.eqb name "NotAllowedError"
            || String.eqb name "PermissionDeniedError"
  then match type with
       | video => "Microphone and/or Camera access denied."
       | audio => "Microphone access denied."
       end
  else "Error accessing media devices.".

(** 1. [getMedia] *)
Definition getMedia (type : CallType) (media : MediaResult) (st : State)
    : State * option MediaStream :=
  let st0 := setMediaError None st in
  match media with
  | MediaOk stream =>
      let st1 := setLocalStream (Some stream) st0 in
      let st2 := match type with video => setIsCamOff false st1 | audio => st1 end in
      (setIsMuted false st2, Some stream)
  | MediaErr name =>
      let st1 := setMediaError (Some (mediaErrorMessage type name)) st0 in
      let st2 := setIsMuted true (setLocalStream None st1) in
      (match type with video => setIsCamOff true st2 | audio => st2 end, None)
  end.

Definition stopTracks (s : option MediaStream) : list Effect :=
  match s with
  | Some stream => map StopTrack (getTracks stream)
  | None => []
  end.

(** 2. [cleanupCall] *)
Definition cleanupCall (st : State) : State * list Effect :=
  (mkState (user st) None None None None false false None (peerRef st) None,
   match activeCallRef st with
   | Some call => [CloseConnection call]
   | None => []
   end ++ stopTracks (localStream st) ++ stopTracks (remoteStream st)).

(** 4. [handleHangUp] *)
Definition handleHangUp (st : State) : State * list Effect := cleanupCall st.

(** 5. [startCall].  Given no stream, [call] of PeerJS logs an error and
    gives back no connection: [activeCallRef] then holds undefined, and
    [call.on] on the next line throws. *)
Definition startCall (targetUser : Profile) (type : CallType)
    (media : MediaResult) (st : State) : State * list Effect :=
  match user st, callInProgress st, peerRef st with
  | Some u, None, true =>
      let (st1, stream) := getMedia type media st in
      let st2 := setCallInProgress (Some (mkCallInfo targetUser type true)) st1 in
      let md := mkMetadata u type in
      let call :=
        match stream with
        | Some _ => Some (mkConnection (id targetUser) md)
        | None => None
        end in
      (setActiveCallRef call st2, [PeerCall (id targetUser) stream md])
  | _, _, _ => (st, [])
  end.

(** 6. [answerCall].  The effect that creates the [Peer] depends on
    [incomingCall]: when the ringing call was stored, its cleanup
    destroyed the [Peer] the call came in on, and the connection with it.
    [answer] on that connection throws, and what follows it ([activeCallRef],
    the listeners, [setIncomingCall(null)]) is not reached. *)
Definition answerCall (media : MediaResult) (st : State)
    : State * list Effect :=
  match incomingCall st, user st with
  | Some inc, Some _ =>
      let (st1, stream) := getMedia (in_type inc) media st in
      let st2 :=
        setCallInProgress (Some (mkCallInfo (in_from inc) (in_type inc) false))
                          st1 in
      (st2, [Answer (peerCall inc) stream])
  | _, _ => (st, [])
  end.

(** 7. [denyCall]: [close] on the connection object, and nothing that
    would reach the caller. *)
Definition denyCall (st : State) : State * list Effect :=
  (setIncomingCall None st,
   match incomingCall st with
   | Some inc => [CloseConnection (peerCall inc)]
   | None => []
   end).

(** [peer.on('call', ...)] *)
Definition onCall (call : MediaConnection) (st : State)
    : State * list Effect :=
  if isSome (callInProgress st) || isSome (incomingCall st)
  then (st, [CloseConnection call])
  else (setIncomingCall
          (Some (mkIncoming (md_from (metadata call)) (md_type (metadata call))
                            call)) st,
        []).

(** Media toggles *)
Definition audioTracksOf (s : option MediaStream) : list MediaStreamTrack :=
  match s with Some stream => getAudioTracks stream | None => [] end.

Definition videoTracksOf (s : option MediaStream) : list MediaStreamTrack :=
  match s with Some stream => getVideoTracks stream | None => [] end.

Definition toggleMute (st : State) : State * list Effect :=
  match audioTracksOf (localStream st) with
  | _ :: _ =>
      let st1 := setLocalStream (option_map flipAudio (localStream st)) st in
      (setIsMuted (negb (isMuted st)) st1, [])
  | [] => (setMediaError (Some "No microphone track available.") st, [])
  end.

Definition toggleCamera (st : State) : State * list Effect :=
  match videoTracksOf (localStream st) with
  | _ :: _ =>
      let st1 := setLocalStream (option_map flipVideo (localStream st)) st in
      (setIsCamOff (negb (isCamOff st)) st1, [])
  | [] => (setMediaError (Some "No camera track available.") st, [])
  end.

(** [toggleMute] pressed [n] times. *)
Definition toggleMuteTimes (n : nat) (st : State) : State :=
  Nat.iter n (fun s => fst (toggleMute s)) st.

End PeerJS.

(** ** JavaScript strings where their characters matter *)

(** A string as the sequence of its UTF-16 code units. *)
Definition JsString := list N.

(** A literal of the source; the literals used below are ASCII. *)
Definition js (s : string) : JsString :=
  map N_of_ascii (list_ascii_of_string s).

(** WhiteSpace and LineTerminator of ECMAScript, what [trim] removes. *)
Definition isWhiteSpace (c : N) : bool :=
  ((9 <=? c) && (c <=? 13) || (c =? 32) || (c =? 160) || (c =? 5760)
   || (8192 <=? c) && (c <=? 8202) || (c =? 8232) || (c =? 8233)
   || (c =? 8239) || (c =? 8287) || (c =? 12288) || (c =? 65279))%N.

Fixpoint trimStart (s : JsString) : JsString :=
  match s with
  | c :: rest => if isWhiteSpace c then trimStart rest else s
  | [] => []
  end.

Definition trimEnd (s : JsString) : JsString := rev (trimStart (rev s)).

Definition trim (s : JsString) : JsString := trimEnd (trimStart s).

(** [!s] for a string [s] *)
Definition isEmpty (s : JsString) : bool :=
  match s with [] => true | _ :: _ => false end.

Fixpoint startsWith (s pat : JsString) : bool :=
  match pat, s with
  | [], _ => true
  | p :: pat', c :: s' => (p =? c)%N && startsWith s' pat'
  | _ :: _, [] => false
  end.

(** [s.includes(pat)] *)
Fixpoint includes (s pat : JsString) : bool :=
  startsWith s pat
  || match s with
     | [] => false
     | _ :: rest => includes rest pat
     end.

(** [a < b] on strings: code unit by code unit, a proper prefix first. *)
Fixpoint jsLt (a b : JsString) : bool :=
  match a, b with
  | _, [] => false
  | [], _ :: _ => true
  | x :: a', y :: b' =>
      if (x <? y)%N then true else if (y <? x)%N then false else jsLt a' b'
  end.

(** [a > b] *)
Definition jsGt (a b : JsString) : bool := jsLt b a.

(** ** The sign-in form (Auth.tsx) *)

Module Auth.

Record Form := mkForm {
  isSignUp : bool;
  email : JsString;
  password : JsString;
  username : JsString;
  displayName : JsString;
  error : JsString;
  success : bool;
  isLoading : bool
}.

Definition setError (v : JsString) (f : Form) : Form :=
  mkForm (isSignUp f) (email f) (password f) (username f) (displayName f)
         v (success f) (isLoading f).

Definition setSuccess (v : bool) (f : Form) : Form :=
  mkForm (isSignUp f) (email f) (password f) (username f) (displayName f)
         (error f) v (isLoading f).

Definition setIsLoading (v : bool) (f : Form) : Form :=
  mkForm (isSignUp f) (email f) (password f) (username f) (displayName f)
         (error f) (success f) v.

(** What [signUp] or [signIn] threw: [err.message], which may be missing,
    and what [toLowerCase] makes of it. *)
Record Thrown := mkThrown {
  message : option JsString;
  lowered : JsString
}.

Inductive Outcome :=
| Resolved
| Rejected (err : Thrown).

Inductive Effect :=
| SignUp (email password username displayName : JsString)
| SignIn (email password : JsString)
| SetTimeout (ms : N).

(** [err.message?.toLowerCase() || ''] *)
Definition lowerMessage (err : Thrown) : JsString :=
  match message err with
  | Some _ => lowered err
  | None => []
  end.

(** The message the [catch] block shows. *)
Definition errorFor (err : Thrown) : JsString :=
  let m := lowerMessage err in
  if includes m (js "invalid login credentials")
     || includes m (js "invalid credentials")
  then js "Wrong email or password. Please try again."
  else if includes m (js "email not confirmed")
  then js "Please check your email and click the confirmation link."
  else if includes m (js "user already registered")
          || includes m (js "already exists")
  then js "An account with this email already exists. Try signing in."
  else if includes m (js "password should be at least")
  then js "Password must be at least 6 characters long."
  else if includes m (js "unable to validate email address")
  then js "Please enter a valid email address."
  else if includes m (js "rate limit") || includes m (js "too many requests")
  then js "Too many attempts. Please wait a minute and try again."
  else if includes m (js "network") || includes m (js "fetch")
  then js "Network error. Please check your connection."
  else match message err with
       | Some (c :: rest) => c :: rest
       | _ => js "Something went wrong. Please try again."
       end.

(** [handleSubmit]; [outcome] is how the awaited [signUp] or [signIn]
    ends when it is called.  The [finally] block runs on every path. *)
Definition handleSubmit (outcome : Outcome) (f : Form) : Form * list Effect :=
  let f0 := setIsLoading true (setSuccess false (setError [] f)) in
  if isSignUp f then
    if isEmpty (trim (username f))
    then (setIsLoading false (setError (js "Username is required") f0), [])
    else if isEmpty (trim (displayName f))
    then (setIsLoading false (setError (js "Display name is required") f0), [])
    else if includes (username f) (js " ")
    then (setIsLoading false
            (setError (js "Username cannot contain spaces") f0), [])
    else
      let call := SignUp (email f) (password f) (username f) (displayName f) in
      match outcome with
      | Resolved =>
          (setIsLoading false (setSuccess true f0), [call; SetTimeout 1800])
      | Rejected err => (setIsLoading false (setError (errorFor err) f0), [call])
      end
  else
    let call := SignIn (email f) (password f) in
    match outcome with
    | Resolved => (setIsLoading false f0, [call])
    | Rejected err => (setIsLoading false (setError (errorFor err) f0), [call])
    end.

(** A string with a character that [trim] leaves. *)
Definition hasVisibleChar (s : JsString) : Prop :=
  exists c, In c s /\ isWhiteSpace c = false.

End Auth.

(** ** The list of conversations (Messages.tsx) *)

Module Messages.

(** A row of [messages] with the two profiles joined in. *)
Record Msg := mkMsg {
  sender_id : string;
  recipient_id : string;
  created_at : JsString;
  sender : option Profile;
  recipient : option Profile
}.

(** A value of [convMap]. *)
Record Conv := mkConv {
  profile : Profile;
  latest : JsString
}.

(** A [Map] with string keys, in insertion order. *)
Definition ConvMap := list (string * Conv).

Fixpoint mapGet (k : string) (m : ConvMap) : option Conv :=
  match m with
  | [] => None
  | (k', v) :: rest => if String.eqb k k' then Some v else mapGet k rest
  end.

(** [set] keeps the place of a key that is there and appends a new one. *)
Fixpoint mapSet (k : string) (v : Conv) (m : ConvMap) : ConvMap :=
  match m with
  | [] => [(k, v)]
  | (k', v') :: rest =>
      if String.eqb k k' then (k', v) :: rest else (k', v') :: mapSet k v rest
  end.

(** [msg.sender_id === user.id ? msg.recipient : msg.sender] *)
Definition other (userId : string) (msg : Msg) : option Profile :=
  if String.eqb (sender_id msg) userId then recipient msg else sender msg.

(** The body of the [forEach]. *)
Definition addMessage (userId : string) (m : ConvMap) (msg : Msg) : ConvMap :=
  match other userId msg with
  | None => m
  | Some o =>
      match mapGet (id o) m with
      | None => mapSet (id o) (mkConv o (created_at msg)) m
      | Some existing =>
          if jsGt (created_at msg) (latest existing)
          then mapSet (id o) (mkConv o (created_at msg)) m
          else m
      end
  end.

Definition convMapOf (userId : string) (data : list Msg) : ConvMap :=
  fold_left (addMessage userId) data [].

Section Sorting.

(** [a.localeCompare(b)], which depends on the locale of the browser. *)
Variable localeCompare : JsString -> JsString -> Z.

(** [(a, b) => b.latest.localeCompare(a.latest)] *)
Definition newestFirst (a b : Conv) : Z := localeCompare (latest b) (latest a).

(** [Array.prototype.sort] is stable: an element is put in front of the
    first one it need not follow.  Where the comparator is not a
    consistent order an engine may arrange the elements otherwise; they
    are the same elements in any case. *)
Fixpoint insertSorted (x : Conv) (l : list Conv) : list Conv :=
  match l with
  | [] => [x]
  | y :: rest =>
      if (newestFirst x y <=? 0)%Z then x :: y :: rest
      else y :: insertSorted x rest
  end.

Fixpoint sort (l : list Conv) : list Conv :=
  match l with
  | [] => []
  | x :: rest => insertSorted x (sort rest)
  end.

(** What [loadConversations] passes to [setConversations]; [data] is null
    when the query failed. *)
Definition loadConversations (userId : string) (data : option (list Msg))
    : list Profile :=
  let convMap :=
    match data with
    | Some rows => convMapOf userId rows
    | None => []
    end in
  map profile (sort (map snd convMap)).

End Sorting.

(** What [sendMessage] reads and writes. *)
Record Draft := mkDraft {
  content : JsString;
  imageUrl : JsString;
  showImageInput : bool;
  selectedUser : option Profile;
  outgoingTypingChannelRef : bool
}.

(** The row handed to [insert]. *)
Record Row := mkRow {
  row_sender_id : string;
  row_recipient_id : string;
  row_content : JsString;
  row_image_url : option JsString
}.

Inductive SendEffect :=
| Track (typing : bool)
| Insert (row : Row).

(** [sendTypingStatus] *)
Definition sendTypingStatus (typing : bool) (d : Draft) : list SendEffect :=
  if outgoingTypingChannelRef d then [Track typing] else [].

(** [sendMessage]; [inserted] tells whether the insert gave back a row. *)
Definition sendMessage (userId : string) (inserted : bool) (d : Draft)
    : Draft * list SendEffect :=
  if isEmpty (trim (content d)) && isEmpty (trim (imageUrl d))
     || negb (isSome (selectedUser d))
  then (d, [])
  else
    match selectedUser d with
    | None => (d, [])
    | Some partner =>
        let row :=
          mkRow userId (id partner) (content d)
                (if isEmpty (imageUrl d) then None else Some (imageUrl d)) in
        (if inserted
         then mkDraft [] [] false (selectedUser d) (outgoingTypingChannelRef d)
         else d,
         sendTypingStatus false d ++ [Insert row])
    end.

End Messages.

(** ** The list of groups (Groups.tsx) *)

Module Groups.

(** [interface Group] *)
Record Group := mkGroup {
  g_id : string;
  g_name : string;
  g_description : string;
  g_type : string;
  g_tag : string;
  g_owner_id : string;
  is_member : option bool
}.

Record State := mkState {
  groups : list Group;
  loading : bool
}.

(** [new Set(memberships?.map(m => m.group_id))] and its [has] *)
Definition memberIds (memberships : option (list string)) : list string :=
  match memberships with Some ids => ids | None => [] end.

Definition has (ids : list string) (k : string) : bool :=
  existsb (String.eqb k) ids.

(** [{ ...g, is_member: memberIds.has(g.id) }] *)
Definition withMembership (ids : list string) (g : Group) : Group :=
  mkGroup (g_id g) (g_name g) (g_description g) (g_type g) (g_tag g)
          (g_owner_id g) (Some (has ids (g_id g))).

(** The test of the [filter]. *)
Definition visibleTo (userId : string) (ids : list string) (g : Group) : bool :=
  negb (String.eqb (g_type g) "secret") || has ids (g_id g)
  || String.eqb (g_owner_id g) userId.

(** [fetchGroups]; the two arguments are what the two queries return. *)
Definition fetchGroups (user : option Profile)
    (groupsData : option (list Group)) (memberships : option (list string))
    (st : State) : State :=
  let st1 := mkState (groups st) true in
  match user with
  | None => st1
  | Some u =>
      let ids := memberIds memberships in
      let processed :=
        map (withMembership ids)
            (filter (visibleTo (id u) ids)
                    (match groupsData with Some gs => gs | None => [] end)) in
      mkState processed false
  end.

End Groups.

(** ** Sample data for the concrete runs below *)

Module Samples.

Definition me : Profile := mkProfile "u-1" "me" "Me" "" false.
Definition bob : Profile := mkProfile "u-2" "bob" "Bob" "" true.
Definition carol : Profile := mkProfile "u-3" "carol" "Carol" "" false.
Definition dave : Profile := mkProfile "u-4" "dave" "Dave" "" false.

Definition mic : MediaStreamTrack := mkTrack "mic" audio true.
Definition cam : MediaStreamTrack := mkTrack "cam" video true.
Definition micOnly : MediaStream := mkStream [mic].
Definition micAndCam : MediaStream := mkStream [mic; cam].

Definition sdpA : RTCSessionDescriptionInit := Sdp "v=0 a".
Definition sdpB : RTCSessionDescriptionInit := Sdp "v=0 b".
Definition sdpC : RTCSessionDescriptionInit := Sdp "v=0 c".
Definition iceC : RTCIceCandidateInit := Ice "candidate:1 1 udp 1 10.0.0.3 9 typ host".

(** Signaling payloads addressed to [me]. *)
Definition offerFromCarol : Signaling.CallPayload :=
  Signaling.mkPayload carol (Some me) (Some sdpC) None None (Some audio).
Definition offerFromBob : Signaling.CallPayload :=
  Signaling.mkPayload bob (Some me) (Some sdpB) None None (Some audio).
Definition candidateFromCarol : Signaling.CallPayload :=
  Signaling.mkPayload carol (Some me) None None (Some iceC) None.
Definition answerFromCarol : Signaling.CallPayload :=
  Signaling.mkPayload carol (Some me) None (Some sdpC) None None.
Definition hangUpFromCarol : Signaling.CallPayload :=
  Signaling.mkPayload carol (Some me) None None None None.
Definition hangUpFromDave : Signaling.CallPayload :=
  Signaling.mkPayload dave (Some me) None None None None.

(** [me], idle; [me] with carol's call ringing; [me] calling bob. *)
Definition idleS : Signaling.State := Signaling.mount (Some me).
Definition ringingS : Signaling.State :=
  fst (Signaling.step idleS (Signaling.CallOffer offerFromCarol)).
Definition callingBobS : Signaling.State :=
  fst (Signaling.step idleS
         (Signaling.StartCall bob audio (MediaOk micOnly) sdpA)).

(** A whole call with carol, ended by her. *)
Definition callWithCarol : list Signaling.Event :=
  [Signaling.CallOffer offerFromCarol;
   Signaling.AnswerCall (MediaOk micOnly) sdpA;
   Signaling.PcTrack micOnly;
   Signaling.ToggleMute;
   Signaling.RemoteHangUp hangUpFromCarol].

(** The same three situations in the PeerJS variant. *)
Definition callFromCarol : PeerJS.MediaConnection :=
  PeerJS.mkConnection "u-3" (PeerJS.mkMetadata carol audio).
Definition callFromBob : PeerJS.MediaConnection :=
  PeerJS.mkConnection "u-2" (PeerJS.mkMetadata bob video).
Definition idleP : PeerJS.State := PeerJS.mount (Some me).
Definition ringingP : PeerJS.State := fst (PeerJS.onCall callFromCarol idleP).
Definition callingBobP : PeerJS.State :=
  fst (PeerJS.startCall bob audio (MediaOk micOnly) idleP).

(** A video call to bob under way. *)
Definition videoCallToBob : PeerJS.State :=
  fst (PeerJS.startCall bob video (MediaOk micAndCam) idleP).

(** Three ways to fill in the form. *)
Definition signUpForm : Auth.Form :=
  Auth.mkForm true (js "li@example.com") (js "secret1") (js "li_wei")
              (js "Li Wei") [] false false.
Definition spacedForm : Auth.Form :=
  Auth.mkForm true (js "li@example.com") (js "secret1") (js "li wei")
              (js "Li Wei") [] false false.
Definition signInForm : Auth.Form :=
  Auth.mkForm false (js "li@example.com") (js "secret1") [] [] [] false false.

(** Messages of [me] with bob and carol, newest first as the query
    returns them, and one whose sender could not be joined. *)
Definition inbox : list Messages.Msg :=
  [Messages.mkMsg "u-2" "u-1" (js "2025-11-23T16:40:00Z") (Some bob) (Some me);
   Messages.mkMsg "u-1" "u-3" (js "2025-11-23T16:38:00Z") (Some me) (Some carol);
   Messages.mkMsg "u-9" "u-1" (js "2025-11-22T08:00:00Z") None (Some me);
   Messages.mkMsg "u-1" "u-2" (js "2025-11-21T09:15:00Z") (Some me) (Some bob)].

(** A comparison of strings by their length, as good a stand-in for
    [localeCompare] as any where the order is not at stake. *)
Definition byLength (a b : JsString) : Z :=
  (Z.of_nat (length a) - Z.of_nat (length b))%Z.

(** Groups as the query returns them: one public, one secret of bob's,
    one secret that [me] has joined. *)
Definition someGroups : list Groups.Group :=
  [Groups.mkGroup "g-1" "Chess" "Openings" "public" "Hobbies" "u-2" None;
   Groups.mkGroup "g-2" "Plans" "Bob only" "secret" "Other" "u-2" None;
   Groups.mkGroup "g-3" "Exam" "Revision" "secret" "Study" "u-3" None].

(** A draft with a picture and no text, and one with only blanks. *)
Definition pictureDraft : Messages.Draft :=
  Messages.mkDraft [] (js "https://example.com/a.png") true (Some bob) true.
Definition blankDraft : Messages.Draft :=
  Messages.mkDraft (js "   ") [] false (Some bob) true.

Definition offerToDave : Signaling.CallPayload :=
  Signaling.mkPayload carol (Some dave) (Some sdpC) None (Some iceC) (Some audio).

End Samples.

(** ** Tactics *)

(** Open a handler down to the state cells it reads and writes. *)
Ltac unfold_handlers :=
  unfold Signaling.step in *;
  unfold Signaling.startCall, Signaling.answerCall, Signaling.denyCall,
    Signaling.startCallResumed, Signaling.answerCallResumed,
    Signaling.onCallOffer, Signaling.onCallAnswer, Signaling.onIceCandidate,
    Signaling.onHangUp, Signaling.onicecandidate, Signaling.ontrack,
    Signaling.toggleMute, Signaling.toggleCamera in *;
  unfold Signaling.handleHangUp, Signaling.answerWith in *;
  unfold Signaling.cleanupCall, Signaling.cleanupWith, Signaling.getMedia,
    Signaling.setupPeerConnection, Signaling.broadcast,
    Signaling.fromCallPeer, Signaling.fromIncomingCaller in *.

(** Case analysis on whatever a handler branches on. *)
Ltac split_cases :=
  repeat match goal with
    | |- context [match ?x with _ => _ end] =>
        match x with
        | context [match _ with _ => _ end] => fail 1
        | _ => destruct x eqn:?
        end
    end.

(** ** General facts about the embedding *)

Lemma run_app (st : Signaling.State) (evs1 evs2 : list Signaling.Event) :
  Signaling.run st (evs1 ++ evs2) =
  let (st1, eff1) := Signaling.run st evs1 in
  let (st2, eff2) := Signaling.run st1 evs2 in
  (st2, eff1 ++ eff2).
Proof.
  revert st. induction evs1 as [|ev evs1 IH]; intros st; simpl.
  - destruct (Signaling.run st evs2); reflexivity.
  - destruct (Signaling.step st ev) as [st1 eff1].
    rewrite IH.
    destruct (Signaling.run st1 evs1) as [st2 eff2].
    destruct (Signaling.run st2 evs2) as [st3 eff3].
    now rewrite app_assoc.
Qed.

(** The state at the end of a run of offered events is reachable. *)
Lemma reachable_run (u : option Profile) (st : Signaling.State)
    (evs : list Signaling.Event) :
  Signaling.reachable u st -> Signaling.allOffered st evs = true ->
  Signaling.reachable u (fst (Signaling.run st evs)).
Proof.
  revert st. induction evs as [|ev evs IH]; intros st Hr Hall; simpl in *.
  - exact Hr.
  - apply andb_true_iff in Hall as [Hev Hall].
    specialize (IH _ (Signaling.reach_step u st ev Hr Hev) Hall).
    destruct (Signaling.step st ev) as [st1 eff1]; simpl in *.
    destruct (Signaling.run st1 evs) as [st2 eff2]; exact IH.
Qed.

(** ** Invariants of the signaling variant *)

Lemma wellFormed_mount (u : option Profile) :
  Signaling.wellFormed u (Signaling.mount u).
Proof.
  unfold Signaling.wellFormed, Signaling.atRest; simpl.
  repeat split; congruence.
Qed.

Lemma wellFormed_step (u : option Profile) (st : Signaling.State)
    (ev : Signaling.Event) :
  Signaling.wellFormed u st -> Signaling.offered st ev = true ->
  Signaling.wellFormed u (fst (Signaling.step st ev)).
Proof.
  unfold Signaling.wellFormed, Signaling.atRest.
  destruct st as [us inc cip ls rs mu co pc ch]; simpl.
  intros (Hu & Hch & Hinc & Hrest) Hoff; subst us ch.
  destruct ev; unfold_handlers; simpl in *; split_cases; simpl in *;
    repeat split; intros; try congruence; try discriminate;
    try (apply Hinc; congruence);
    try match goal with
      | H : ?c = None, Hr : ?c = None -> _ |- _ =>
          destruct (Hr H) as (? & ? & ? & ? & ?); subst; simpl in *; congruence
      end.
Qed.

Lemma reachable_wellFormed (u : option Profile) (st : Signaling.State) :
  Signaling.reachable u st -> Signaling.wellFormed u st.
Proof.
  induction 1 as [|st ev _ IH Hoff].
  - apply wellFormed_mount.
  - now apply wellFormed_step.
Qed.

(** ** Hang-up from a stranger *)

(** C8.  A [hang-up] whose sender is neither the peer of the call in
    progress nor the caller of the ringing call changes nothing: the
    listener returns the state it was given and does nothing else. *)
Theorem hangup_from_stranger_is_noop (payload : Signaling.CallPayload)
    (st : Signaling.State) :
  (forall c, Signaling.callInProgress st = Some c ->
             id (Signaling.pl_from payload) <> id (Signaling.ci_with c)) ->
  (forall inc, Signaling.incomingCall st = Some inc ->
               id (Signaling.pl_from payload) <> id (Signaling.pl_from inc)) ->
  Signaling.onHangUp payload st = (st, []).
Proof.
  intros Hcall Hinc.
  assert (Hc : Signaling.fromCallPeer payload st = false).
  { unfold Signaling.fromCallPeer.
    destruct (Signaling.callInProgress st) as [c|]; [|reflexivity].
    apply String.eqb_neq. now apply Hcall. }
  assert (Hi : Signaling.fromIncomingCaller payload st = false).
  { unfold Signaling.fromIncomingCaller.
    destruct (Signaling.incomingCall st) as [inc|]; [|reflexivity].
    apply String.eqb_neq. now apply Hinc. }
  unfold Signaling.onHangUp. rewrite Hc, Hi.
  now destruct (Signaling.user st).
Qed.

Lemma hangup_from_stranger_is_noop_witness :
  let st := fst (Signaling.run Samples.idleS
                   [Signaling.CallOffer Samples.offerFromCarol;
                    Signaling.StartCall Samples.bob audio
                      (MediaOk Samples.micOnly) Samples.sdpA]) in
  Signaling.incomingCall st <> None /\ Signaling.callInProgress st <> None
  /\ Signaling.onHangUp Samples.hangUpFromDave st = (st, []).
Proof.
  split; [discriminate|]. split; [discriminate|].
  apply hangup_from_stranger_is_noop.
  - intros c H. vm_compute in H. injection H as <-. discriminate.
  - intros inc H. vm_compute in H. injection H as <-. discriminate.
Defined.

(** ** Denying a call *)




(** ** The actions when there is no call *)

(** Whatever else the state holds, hanging up without a call in progress
    broadcasts nothing. *)
Lemma hangUp_without_call_is_silent (st : Signaling.State)
    (event : Signaling.SignalEvent) (payload : Signaling.CallPayload) :
  Signaling.callInProgress st = None ->
  ~ In (Signaling.Broadcast event payload)
       (snd (Signaling.handleHangUp true st)).
Proof.
  intros Hcall. unfold Signaling.handleHangUp, Signaling.cleanupCall.
  rewrite Hcall; simpl. intros Hin.
  repeat (apply in_app_or in Hin as [Hin|Hin]).
  - destruct (isSome (Signaling.pcRef st)); simpl in Hin;
      [destruct Hin as [Hin|Hin]; [discriminate Hin | exact Hin] | exact Hin].
  - destruct (Signaling.localStream st) as [ls|]; simpl in Hin; [|exact Hin].
    now apply in_map_iff in Hin as (t & Ht & _).
  - destruct (Signaling.remoteStream st) as [rs|]; simpl in Hin; [|exact Hin].
    now apply in_map_iff in Hin as (t & Ht & _).
Qed.

(** C10.  With no call in progress and no call ringing, [answerCall],
    [denyCall] and hanging up each leave the state exactly as it was and
    broadcast nothing (they do nothing at all on the outside). *)
Theorem actions_without_call_are_noops
    (u : option Profile) (st : Signaling.State) (media : MediaResult)
    (answer : RTCSessionDescriptionInit) :
  Signaling.reachable u st ->
  Signaling.callInProgress st = None ->
  Signaling.incomingCall st = None ->
  Signaling.answerCall media answer st = (st, [])
  /\ Signaling.denyCall st = (st, [])
  /\ Signaling.handleHangUp true st = (st, []).
Proof.
  intros Hreach Hcall Hinc.
  destruct (reachable_wellFormed _ _ Hreach) as (_ & _ & _ & Hrest).
  destruct (Hrest Hcall) as (Hls & Hrs & Hpc & Hmu & Hco).
  destruct st as [us inc cip ls rs mu co pc ch]; simpl in *; subst.
  unfold Signaling.answerCall, Signaling.denyCall, Signaling.handleHangUp,
    Signaling.cleanupCall; simpl.
  repeat split.
Qed.

Lemma actions_without_call_are_noops_witness :
  let st := fst (Signaling.run Samples.idleS Samples.callWithCarol) in
  Signaling.answerCall (MediaOk Samples.micOnly) Samples.sdpB st = (st, [])
  /\ Signaling.denyCall st = (st, [])
  /\ Signaling.handleHangUp true st = (st, []).
Proof.
  apply (actions_without_call_are_noops (Some Samples.me)).
  - apply (reachable_run (Some Samples.me) Samples.idleS Samples.callWithCarol).
    + apply Signaling.reach_mount.
    + reflexivity.
  - reflexivity.
  - reflexivity.
Defined.

(** ** One session at a time *)

(** A call in progress makes [startCall] return at once, in both variants. *)
Lemma startCall_rejected_during_call
    (targetUser : Profile) (type : CallType) (media : MediaResult)
    (offer : RTCSessionDescriptionInit)
    (st : Signaling.State) (stP : PeerJS.State) :
  Signaling.callInProgress st <> None ->
  PeerJS.callInProgress stP <> None ->
  Signaling.startCall targetUser type media offer st = (st, [])
  /\ PeerJS.startCall targetUser type media stP = (stP, []).
Proof.
  intros H HP. unfold Signaling.startCall, PeerJS.startCall.
  destruct (Signaling.callInProgress st); [|congruence].
  destruct (PeerJS.callInProgress stP); [|congruence].
  destruct (Signaling.user st), (PeerJS.user stP); split; reflexivity.
Qed.

(** C1.  A call from carol is ringing and the user starts a call to bob:
    [startCall] goes through.  It opens a connection, gets as far as
    the [broadcast] call for a [call-offer] to bob and fills
    [callInProgress] while [incomingCall] is still filled, so that two
    sessions exist; the PeerJS variant places the call to bob in the same
    way. *)
Theorem startCall_while_ringing_goes_through :
  Signaling.incomingCall Samples.ringingS = Some Samples.offerFromCarol
  /\ Signaling.callInProgress Samples.ringingS = None
  /\ (let r := Signaling.startCall Samples.bob audio (MediaOk Samples.micOnly)
                 Samples.sdpA Samples.ringingS in
      snd r =
        [Signaling.NewPeerConnection Samples.bob;
         Signaling.AddTrack Samples.mic;
         Signaling.SetLocalDescription Samples.sdpA;
         Signaling.Broadcast Signaling.call_offer
           (Signaling.mkPayload Samples.me (Some Samples.bob)
              (Some Samples.sdpA) None None (Some audio))]
      /\ Signaling.incomingCall (fst r) = Some Samples.offerFromCarol
      /\ Signaling.callInProgress (fst r) =
           Some (Signaling.mkCallInfo Samples.bob (Some audio) true)
      /\ Signaling.oneSession (fst r) = false)
  /\ PeerJS.incomingCall Samples.ringingP <> None
  /\ PeerJS.callInProgress Samples.ringingP = None
  /\ (let r := PeerJS.startCall Samples.bob audio (MediaOk Samples.micOnly)
                 Samples.ringingP in
      snd r =
        [PeerJS.PeerCall "u-2" (Some Samples.micOnly)
           (PeerJS.mkMetadata Samples.me audio)]
      /\ PeerJS.incomingCall (fst r) = PeerJS.incomingCall Samples.ringingP
      /\ PeerJS.callInProgress (fst r) =
           Some (PeerJS.mkCallInfo Samples.bob audio true)).
Proof.
  repeat split; try reflexivity; discriminate.
Qed.

(** ** An offer while busy *)

(** C2 does not hold as stated.  In the signaling variant an offer that
    finds a call ringing is answered by nothing: no [hang-up] goes back
    to bob. *)
Lemma busy_offer_gets_no_reply :
  Signaling.incomingCall Samples.ringingS <> None
  /\ Signaling.toMe Samples.me Samples.offerFromBob = true
  /\ ~ (exists payload,
          In (Signaling.Broadcast Signaling.hang_up payload)
             (snd (Signaling.onCallOffer Samples.offerFromBob Samples.ringingS))).
Proof.
  split; [discriminate|]. split; [reflexivity|].
  intros (payload & H). exact H.
Qed.

(** C2, amended.  An offer that arrives while a call is in progress or
    ringing leaves the state as it is in both variants and is not kept
    anywhere.  The PeerJS variant closes the offered connection at once;
    the signaling variant does nothing at all. *)
Theorem busy_offer_leaves_state
    (payload : Signaling.CallPayload) (st : Signaling.State)
    (call : PeerJS.MediaConnection) (stP : PeerJS.State) :
  Signaling.callInProgress st <> None \/ Signaling.incomingCall st <> None ->
  PeerJS.callInProgress stP <> None \/ PeerJS.incomingCall stP <> None ->
  Signaling.onCallOffer payload st = (st, [])
  /\ PeerJS.onCall call stP = (stP, [PeerJS.CloseConnection call]).
Proof.
  intros H HP. split.
  - unfold Signaling.onCallOffer.
    destruct (Signaling.user st) as [self|]; [|reflexivity].
    destruct (Signaling.callInProgress st), (Signaling.incomingCall st);
      simpl; rewrite ?andb_false_r; try reflexivity.
    destruct H; congruence.
  - unfold PeerJS.onCall.
    destruct (PeerJS.callInProgress stP), (PeerJS.incomingCall stP);
      simpl; try reflexivity.
    destruct HP; congruence.
Qed.

Lemma busy_offer_leaves_state_witness :
  Signaling.onCallOffer Samples.offerFromBob Samples.callingBobS
    = (Samples.callingBobS, [])
  /\ PeerJS.onCall Samples.callFromBob Samples.ringingP
       = (Samples.ringingP, [PeerJS.CloseConnection Samples.callFromBob]).
Proof.
  apply busy_offer_leaves_state.
  - left. discriminate.
  - right. discriminate.
Defined.

(** ** Candidates *)

(** C3 does not hold as stated.  Carol's candidate reaches the callee
    while her call is still ringing; the callee then answers.  The remote
    description is set, and the candidate is handed to the connection
    neither then nor before. *)
Lemma early_candidate_is_lost :
  let r := Signaling.run Samples.idleS
             [Signaling.CallOffer Samples.offerFromCarol;
              Signaling.IceCandidate Samples.candidateFromCarol;
              Signaling.AnswerCall (MediaOk Samples.micOnly) Samples.sdpA] in
  In (Signaling.SetRemoteDescription (Some Samples.sdpC)) (snd r)
  /\ ~ In (Signaling.AddIceCandidate (Some Samples.iceC)) (snd r).
Proof.
  split.
  - vm_compute. tauto.
  - vm_compute. intros H.
    repeat (destruct H as [H|H]; [discriminate H|]). exact H.
Qed.

(** On the caller's side a candidate that comes before the answer goes
    to the connection the moment it comes, ahead of any remote
    description. *)
Example candidate_before_answer_goes_straight_in :
  snd (Signaling.run Samples.idleS
         [Signaling.StartCall Samples.carol audio (MediaOk Samples.micOnly)
            Samples.sdpA;
          Signaling.IceCandidate Samples.candidateFromCarol;
          Signaling.CallAnswer Samples.answerFromCarol])
  = [Signaling.NewPeerConnection Samples.carol;
     Signaling.AddTrack Samples.mic;
     Signaling.SetLocalDescription Samples.sdpA;
     Signaling.Broadcast Signaling.call_offer
       (Signaling.mkPayload Samples.me (Some Samples.carol)
          (Some Samples.sdpA) None None (Some audio));
     Signaling.AddIceCandidate (Some Samples.iceC);
     Signaling.SetRemoteDescription (Some Samples.sdpC)].
Proof. reflexivity. Qed.

Lemma handedCandidates_app (eff1 eff2 : list Signaling.Effect) :
  Signaling.handedCandidates (eff1 ++ eff2) =
  Signaling.handedCandidates eff1 ++ Signaling.handedCandidates eff2.
Proof. apply flat_map_app. Qed.

Lemma handedCandidates_AddTrack (ts : list MediaStreamTrack) :
  Signaling.handedCandidates (map Signaling.AddTrack ts) = [].
Proof. induction ts as [|t ts IH]; simpl; [reflexivity | exact IH]. Qed.

Lemma handedCandidates_stopTracks (s : option MediaStream) :
  Signaling.handedCandidates (Signaling.stopTracks s) = [].
Proof.
  destruct s as [[ts]|]; simpl; [|reflexivity].
  induction ts as [|t ts IH]; simpl; [reflexivity | exact IH].
Qed.

(** C3, amended.  The component keeps no candidates: the listener never
    changes the state.  A candidate addressed to the user is handed to the
    connection on receipt when a call is in progress and a connection
    exists, whether or not a remote description has been set, and is
    discarded otherwise; no other event hands a candidate to the
    connection. *)
Theorem candidate_forwarded_on_receipt_or_discarded
    (payload : Signaling.CallPayload) (st : Signaling.State)
    (ev : Signaling.Event) :
  fst (Signaling.onIceCandidate payload st) = st
  /\ snd (Signaling.onIceCandidate payload st) =
       match Signaling.user st, Signaling.callInProgress st, Signaling.pcRef st with
       | Some self, Some _, Some _ =>
           if Signaling.toMe self payload
           then [Signaling.AddIceCandidate (Signaling.pl_candidate payload)]
           else []
       | _, _, _ => []
       end
  /\ match ev with
     | Signaling.IceCandidate _ => True
     | _ => Signaling.handedCandidates (snd (Signaling.step st ev)) = []
     end.
Proof.
  split; [|split].
  - unfold Signaling.onIceCandidate.
    destruct (Signaling.user st); [|reflexivity].
    now destruct (_ && _).
  - unfold Signaling.onIceCandidate.
    destruct (Signaling.user st) as [self|]; [|reflexivity].
    destruct (Signaling.toMe self payload), (Signaling.callInProgress st),
      (Signaling.pcRef st); reflexivity.
  - destruct ev; try exact I; unfold_handlers; split_cases; simpl;
      rewrite ?handedCandidates_app, ?handedCandidates_AddTrack,
        ?handedCandidates_stopTracks; reflexivity.
Qed.

(** ** Answers *)

(** C4 does not hold as stated.  The user is calling bob; an answer sent
    by carol is applied to the connection as its remote description. *)
Lemma answer_from_stranger_is_applied :
  Signaling.callInProgress Samples.callingBobS =
    Some (Signaling.mkCallInfo Samples.bob (Some audio) true)
  /\ id (Signaling.pl_from Samples.answerFromCarol) <> id Samples.bob
  /\ ~ (snd (Signaling.onCallAnswer Samples.answerFromCarol Samples.callingBobS)
          = [])
  /\ snd (Signaling.onCallAnswer Samples.answerFromCarol Samples.callingBobS)
       = [Signaling.SetRemoteDescription (Some Samples.sdpC)].
Proof.
  repeat split; try reflexivity; discriminate.
Qed.

(** C4, amended.  An answer is applied as the remote description exactly
    when it is addressed to the user, a call is in progress in which the
    user is the caller, and a connection exists; who sent it plays no
    part.  The listener never changes the state of the component. *)
Theorem answer_applied_whoever_sent_it
    (payload : Signaling.CallPayload) (st : Signaling.State)
    (sender : Profile) :
  fst (Signaling.onCallAnswer payload st) = st
  /\ snd (Signaling.onCallAnswer payload st) =
       match Signaling.user st, Signaling.callInProgress st, Signaling.pcRef st with
       | Some self, Some c, Some _ =>
           if Signaling.toMe self payload && Signaling.ci_isCaller c
           then [Signaling.SetRemoteDescription (Signaling.pl_answer payload)]
           else []
       | _, _, _ => []
       end
  /\ Signaling.onCallAnswer
       (Signaling.mkPayload sender (Signaling.pl_to payload)
          (Signaling.pl_offer payload) (Signaling.pl_answer payload)
          (Signaling.pl_candidate payload) (Signaling.pl_type payload)) st
     = Signaling.onCallAnswer payload st.
Proof.
  unfold Signaling.onCallAnswer, Signaling.toMe, Signaling.isCallerOf; simpl.
  destruct (Signaling.user st) as [self|]; [|repeat split].
  destruct (Signaling.pl_to payload) as [t|],
    (Signaling.callInProgress st) as [[w ty [|]]|],
    (Signaling.pcRef st); simpl;
    try destruct (id t =? id self)%string; repeat split.
Qed.

(** ** Media that cannot be had *)

Example permission_denied_banner :
  PeerJS.mediaErrorMessage audio "NotAllowedError" = "Microphone access denied."
  /\ PeerJS.mediaErrorMessage video "PermissionDeniedError"
       = "Microphone and/or Camera access denied."
  /\ PeerJS.mediaErrorMessage video "NotFoundError"
       = "No microphone or camera found."
  /\ PeerJS.mediaErrorMessage audio "AbortError"
       = "Error accessing media devices.".
Proof. repeat split. Qed.

(** C5 does not hold as stated.  In the signaling variant a refused
    microphone ends [startCall]: no call is in progress afterwards and no
    offer has been sent. *)
Lemma startCall_gives_up_without_media :
  let r := Signaling.startCall Samples.bob audio (MediaErr "NotAllowedError")
             Samples.sdpA Samples.idleS in
  ~ (exists c, Signaling.callInProgress (fst r) = Some c)
  /\ ~ (exists payload,
          In (Signaling.Broadcast Signaling.call_offer payload) (snd r)).
Proof.
  split.
  - intros (c & H). discriminate H.
  - intros (payload & H). exact H.
Qed.

(** C5, amended.  When media cannot be had, the signaling variant gives
    up: it changes nothing and sends nothing.  The PeerJS variant does not
    give up: it records the call in progress with the user as caller and
    sets the error banner that belongs to the failure; it holds no local
    stream and the mute flag is on. *)
Theorem startCall_media_failure
    (targetUser : Profile) (type : CallType) (name : string)
    (offer : RTCSessionDescriptionInit) (st : Signaling.State)
    (stP : PeerJS.State) (self : Profile) :
  PeerJS.user stP = Some self ->
  PeerJS.callInProgress stP = None ->
  PeerJS.peerRef stP = true ->
  let r := PeerJS.startCall targetUser type (MediaErr name) stP in
  PeerJS.callInProgress (fst r) =
    Some (PeerJS.mkCallInfo targetUser type true)
  /\ PeerJS.mediaError (fst r) = Some (PeerJS.mediaErrorMessage type name)
  /\ PeerJS.localStream (fst r) = None
  /\ PeerJS.isMuted (fst r) = true
  /\ PeerJS.incomingCall (fst r) = PeerJS.incomingCall stP
  /\ PeerJS.remoteStream (fst r) = PeerJS.remoteStream stP
  /\ Signaling.startCall targetUser type (MediaErr name) offer st = (st, []).
Proof.
  intros Hu Hc Hp; simpl.
  unfold PeerJS.startCall, Signaling.startCall.
  rewrite Hu, Hc, Hp; simpl.
  repeat split; try (destruct type; reflexivity).
  destruct (Signaling.user st), (Signaling.callInProgress st); reflexivity.
Qed.

Lemma startCall_media_failure_witness :
  let r := PeerJS.startCall Samples.bob video (MediaErr "NotAllowedError")
             Samples.idleP in
  PeerJS.callInProgress (fst r) =
    Some (PeerJS.mkCallInfo Samples.bob video true)
  /\ PeerJS.mediaError (fst r) = Some "Microphone and/or Camera access denied."
  /\ PeerJS.localStream (fst r) = None
  /\ PeerJS.isMuted (fst r) = true
  /\ PeerJS.incomingCall (fst r) = None
  /\ PeerJS.remoteStream (fst r) = None
  /\ Signaling.startCall Samples.bob video (MediaErr "NotAllowedError")
       Samples.sdpA Samples.idleS = (Samples.idleS, []).
Proof.
  apply (startCall_media_failure Samples.bob video "NotAllowedError"
           Samples.sdpA Samples.idleS Samples.idleP Samples.me);
    reflexivity.
Defined.

(** What the PeerJS variant does not manage: without a stream [call]
    gives back no connection, and none is held afterwards. *)
Lemma startCall_without_stream_holds_no_connection
    (targetUser : Profile) (type : CallType) (name : string)
    (stP : PeerJS.State) :
  PeerJS.activeCallRef
    (fst (PeerJS.startCall targetUser type (MediaErr name) stP))
  = match PeerJS.user stP, PeerJS.callInProgress stP, PeerJS.peerRef stP with
    | Some _, None, true => None
    | _, _, _ => PeerJS.activeCallRef stP
    end.
Proof.
  unfold PeerJS.startCall.
  destruct (PeerJS.user stP), (PeerJS.callInProgress stP), (PeerJS.peerRef stP);
    try reflexivity; destruct type; reflexivity.
Qed.

(** C6 does not hold as stated.  In the PeerJS variant a refused
    microphone does not make [answerCall] deny: a call is in progress
    afterwards and carol's connection has not been closed.  In the
    signaling variant the call is dropped and no [hang-up] is sent. *)
Lemma answerCall_without_media_is_no_deny :
  (let r := PeerJS.answerCall (MediaErr "NotAllowedError") Samples.ringingP in
   ~ (PeerJS.callInProgress (fst r) = None)
   /\ ~ In (PeerJS.CloseConnection Samples.callFromCarol) (snd r))
  /\ ~ (exists payload,
          In (Signaling.Broadcast Signaling.hang_up payload)
             (snd (Signaling.answerCall (MediaErr "NotAllowedError")
                     Samples.sdpA Samples.ringingS))).
Proof.
  split; [split|].
  - discriminate.
  - intros [H|H]; [discriminate H | exact H].
  - intros (payload & H). exact H.
Qed.

(** C6, amended.  When media cannot be had while answering a call that
    rings with no call in progress, the signaling variant drops the call:
    nothing rings, no call is in progress, no stream or connection is
    held and the flags are off.  The PeerJS variant does not deny: it
    records the call in progress with the user as callee and sets the
    error banner; it holds no local stream and the mute flag is on. *)
Theorem answerCall_media_failure
    (name : string) (answer : RTCSessionDescriptionInit)
    (st : Signaling.State) (inc : Signaling.CallPayload) (self : Profile)
    (stP : PeerJS.State) (incP : PeerJS.IncomingCall) (selfP : Profile) :
  Signaling.incomingCall st = Some inc ->
  Signaling.callInProgress st = None ->
  Signaling.user st = Some self ->
  PeerJS.incomingCall stP = Some incP ->
  PeerJS.user stP = Some selfP ->
  fst (Signaling.answerCall (MediaErr name) answer st) =
    Signaling.mkState (Some self) None None None None false false None
      (Signaling.callChannelRef st)
  /\ (let r := PeerJS.answerCall (MediaErr name) stP in
      PeerJS.callInProgress (fst r) =
        Some (PeerJS.mkCallInfo (PeerJS.in_from incP) (PeerJS.in_type incP)
                false)
      /\ PeerJS.mediaError (fst r) =
           Some (PeerJS.mediaErrorMessage (PeerJS.in_type incP) name)
      /\ PeerJS.localStream (fst r) = None
      /\ PeerJS.isMuted (fst r) = true).
Proof.
  intros Hi Hc Hu HiP HuP. split.
  - unfold Signaling.answerCall. rewrite Hi, Hu; simpl.
    unfold Signaling.handleHangUp, Signaling.cleanupCall; simpl.
    now rewrite Hc, Hu.
  - unfold PeerJS.answerCall. rewrite HiP, HuP; simpl.
    repeat split; destruct (PeerJS.in_type incP); reflexivity.
Qed.

Lemma answerCall_media_failure_witness :
  fst (Signaling.answerCall (MediaErr "NotFoundError") Samples.sdpA
         Samples.ringingS) = Samples.idleS
  /\ (let r := PeerJS.answerCall (MediaErr "NotFoundError") Samples.ringingP in
      PeerJS.callInProgress (fst r) =
        Some (PeerJS.mkCallInfo Samples.carol audio false)
      /\ PeerJS.mediaError (fst r) = Some "No microphone or camera found."
      /\ PeerJS.localStream (fst r) = None
      /\ PeerJS.isMuted (fst r) = true).
Proof.
  apply (answerCall_media_failure "NotFoundError" Samples.sdpA
           Samples.ringingS Samples.offerFromCarol Samples.me
           Samples.ringingP
           (PeerJS.mkIncoming Samples.carol audio Samples.callFromCarol)
           Samples.me);
    reflexivity.
Defined.

(** ** Mute *)

Lemma flipAudio_flips (s : MediaStream) :
  Forall2 (flippedIf isAudioTrack) (getTracks s) (getTracks (flipAudio s)).
Proof.
  destruct s as [ts]; simpl.
  induction ts as [|t ts IH]; simpl; constructor; [|exact IH].
  unfold flippedIf. destruct (isAudioTrack t) eqn:Ha; simpl; rewrite ?Ha; auto.
Qed.

Lemma getAudioTracks_flipAudio (s : MediaStream) :
  getAudioTracks (flipAudio s) = map flipTrack (getAudioTracks s).
Proof.
  destruct s as [ts]; unfold getAudioTracks; simpl.
  induction ts as [|t ts IH]; simpl; [reflexivity|].
  destruct (isAudioTrack t) eqn:Ha; simpl.
  - replace (isAudioTrack (flipTrack t)) with true by exact (eq_sym Ha).
    simpl. now rewrite IH.
  - rewrite Ha. exact IH.
Qed.

Lemma mutedAgrees_flipAudio (muted : bool) (s : option MediaStream) :
  mutedAgrees muted s -> mutedAgrees (negb muted) (option_map flipAudio s).
Proof.
  unfold mutedAgrees. intros H stream' t' Hs Hin.
  destruct s as [stream|]; simpl in Hs; [|discriminate].
  injection Hs as <-.
  rewrite getAudioTracks_flipAudio in Hin.
  apply in_map_iff in Hin as (t & <- & Hin).
  simpl. now rewrite (H stream t eq_refl Hin).
Qed.

Lemma hasAudioTrack_spec (s : MediaStream) :
  Signaling.hasAudioTrack s = true <-> getAudioTracks s <> [].
Proof.
  unfold Signaling.hasAudioTrack.
  destruct (getAudioTracks s); split; congruence.
Qed.

Lemma hasAudioTrack_flipAudio (s : MediaStream) :
  Signaling.hasAudioTrack (flipAudio s) = Signaling.hasAudioTrack s.
Proof.
  unfold Signaling.hasAudioTrack. rewrite getAudioTracks_flipAudio.
  now destruct (getAudioTracks s).
Qed.

Lemma getAudioTracks_flipVideo (s : MediaStream) :
  getAudioTracks (flipVideo s) = getAudioTracks s.
Proof.
  destruct s as [ts]; unfold getAudioTracks, flipVideo; simpl.
  induction ts as [|[l k e] ts IH]; simpl; [reflexivity|].
  destruct k; simpl; now rewrite IH.
Qed.

Lemma hasAudioTrack_flipVideo (s : MediaStream) :
  Signaling.hasAudioTrack (flipVideo s) = Signaling.hasAudioTrack s.
Proof.
  unfold Signaling.hasAudioTrack. now rewrite getAudioTracks_flipVideo.
Qed.

(** During a call the local stream has an audio track: every event of a
    run whose streams have one keeps it so. *)
Lemma audio_track_step (st : Signaling.State) (ev : Signaling.Event) :
  (Signaling.callInProgress st <> None ->
   exists s, Signaling.localStream st = Some s
             /\ Signaling.hasAudioTrack s = true) ->
  Signaling.grantsAudio ev = true ->
  Signaling.callInProgress (fst (Signaling.step st ev)) <> None ->
  exists s, Signaling.localStream (fst (Signaling.step st ev)) = Some s
            /\ Signaling.hasAudioTrack s = true.
Proof.
  destruct st as [us inc cip ls rs mu co pc ch]; simpl.
  intros Hst Hev.
  destruct ev; unfold_handlers; simpl in *; split_cases; simpl in *;
    intros Hcall; try congruence; eauto;
    try (destruct (Hst Hcall) as (s0 & Hs0 & Ha); injection Hs0 as <-;
         eexists; split; [reflexivity|];
         rewrite ?hasAudioTrack_flipAudio, ?hasAudioTrack_flipVideo;
         exact Ha);
    try (destruct (Hst Hcall) as (s0 & Hs0 & Ha); discriminate Hs0);
    destruct (Hst Hcall) as (s0 & -> & Ha); simpl;
    eexists; (split; [reflexivity|]);
    rewrite ?hasAudioTrack_flipAudio, ?hasAudioTrack_flipVideo; exact Ha.
Qed.

Lemma audio_track_run (st : Signaling.State) (evs : list Signaling.Event) :
  (Signaling.callInProgress st <> None ->
   exists s, Signaling.localStream st = Some s
             /\ Signaling.hasAudioTrack s = true) ->
  forallb Signaling.grantsAudio evs = true ->
  Signaling.callInProgress (fst (Signaling.run st evs)) <> None ->
  exists s, Signaling.localStream (fst (Signaling.run st evs)) = Some s
            /\ Signaling.hasAudioTrack s = true.
Proof.
  revert st. induction evs as [|ev evs IH]; intros st Hst Hall; simpl in *.
  - exact Hst.
  - apply andb_true_iff in Hall as [Hev Hall].
    specialize (IH (fst (Signaling.step st ev))
                  (audio_track_step st ev Hst Hev) Hall).
    destruct (Signaling.step st ev) as [st1 eff1]; simpl in *.
    destruct (Signaling.run st1 evs) as [st2 eff2]; exact IH.
Qed.

(** C7.  In the PeerJS variant [toggleMute] without an audio track sets
    the error banner and changes nothing else, so the mute flag stays;
    with audio tracks it negates [enabled] on every audio track, leaves
    the other tracks alone, negates the mute flag and keeps the flag in
    agreement with the tracks.  In the signaling variant, with audio
    tracks [toggleMute] does the same to the tracks and to the flag; and
    there the mute button is never there without an audio track: after
    any run from the mounted state in which the streams granted have an
    audio track, if mute can be pressed the local stream has one. *)
Theorem toggleMute_flips_or_reports
    (stP : PeerJS.State) (st : Signaling.State) (u : option Profile)
    (evs : list Signaling.Event) :
  (PeerJS.audioTracksOf (PeerJS.localStream stP) = [] ->
     PeerJS.toggleMute stP =
       (PeerJS.setMediaError (Some "No microphone track available.") stP, [])
     /\ PeerJS.isMuted (fst (PeerJS.toggleMute stP)) = PeerJS.isMuted stP
     /\ PeerJS.localStream (fst (PeerJS.toggleMute stP)) = PeerJS.localStream stP)
  /\ (PeerJS.audioTracksOf (PeerJS.localStream stP) <> [] ->
        (exists s s',
            PeerJS.localStream stP = Some s
            /\ PeerJS.localStream (fst (PeerJS.toggleMute stP)) = Some s'
            /\ Forall2 (flippedIf isAudioTrack) (getTracks s) (getTracks s'))
        /\ PeerJS.isMuted (fst (PeerJS.toggleMute stP))
             = negb (PeerJS.isMuted stP)
        /\ PeerJS.mediaError (fst (PeerJS.toggleMute stP))
             = PeerJS.mediaError stP
        /\ (mutedAgrees (PeerJS.isMuted stP) (PeerJS.localStream stP) ->
            mutedAgrees (PeerJS.isMuted (fst (PeerJS.toggleMute stP)))
                        (PeerJS.localStream (fst (PeerJS.toggleMute stP)))))
  /\ (forall s,
        Signaling.localStream st = Some s -> getAudioTracks s <> [] ->
        (exists s',
            Signaling.localStream (fst (Signaling.toggleMute st)) = Some s'
            /\ Forall2 (flippedIf isAudioTrack) (getTracks s) (getTracks s'))
        /\ Signaling.isMuted (fst (Signaling.toggleMute st))
             = negb (Signaling.isMuted st)
        /\ (mutedAgrees (Signaling.isMuted st) (Signaling.localStream st) ->
            mutedAgrees (Signaling.isMuted (fst (Signaling.toggleMute st)))
                        (Signaling.localStream (fst (Signaling.toggleMute st)))))
  /\ (forallb Signaling.grantsAudio evs = true ->
      Signaling.offered (fst (Signaling.run (Signaling.mount u) evs))
                        Signaling.ToggleMute = true ->
      exists s,
        Signaling.localStream (fst (Signaling.run (Signaling.mount u) evs))
          = Some s
        /\ getAudioTracks s <> []).
Proof.
  split; [|split; [|split]].
  - intros Hnone. unfold PeerJS.toggleMute. rewrite Hnone. repeat split.
  - intros Hsome. unfold PeerJS.toggleMute.
    destruct (PeerJS.audioTracksOf (PeerJS.localStream stP)) as [|t ts] eqn:Ha;
      [congruence|]; simpl.
    split; [|split; [|split]]; try reflexivity.
    + destruct (PeerJS.localStream stP) as [s|]; [|discriminate Ha].
      exists s, (flipAudio s). repeat split. apply flipAudio_flips.
    + apply mutedAgrees_flipAudio.
  - intros s Hs _. unfold Signaling.toggleMute; simpl. rewrite Hs; simpl.
    split; [|split]; try reflexivity.
    + exists (flipAudio s). split; [reflexivity | apply flipAudio_flips].
    + intros H. apply (mutedAgrees_flipAudio _ (Some s)). exact H.
  - intros Hall Hoff. simpl in Hoff.
    destruct (audio_track_run (Signaling.mount u) evs) as (s & Hs & Ha).
    + intros H. now contradiction H.
    + exact Hall.
    + intros H. rewrite H in Hoff. discriminate Hoff.
    + exists s. split; [exact Hs | now apply hasAudioTrack_spec].
Qed.

Lemma toggleMute_flips_or_reports_witness :
  (let stP := fst (PeerJS.startCall Samples.bob audio
                     (MediaErr "NotAllowedError") Samples.idleP) in
   PeerJS.mediaError (fst (PeerJS.toggleMute stP))
     = Some "No microphone track available."
   /\ PeerJS.isMuted (fst (PeerJS.toggleMute stP)) = PeerJS.isMuted stP)
  /\ PeerJS.isMuted (fst (PeerJS.toggleMute Samples.callingBobP)) = true
  /\ Signaling.isMuted (fst (Signaling.toggleMute Samples.callingBobS)) = true
  /\ (exists s,
        Signaling.localStream Samples.callingBobS = Some s
        /\ getAudioTracks s <> []).
Proof.
  split; [|split; [|split]].
  - destruct (proj1 (toggleMute_flips_or_reports
                       (fst (PeerJS.startCall Samples.bob audio
                               (MediaErr "NotAllowedError") Samples.idleP))
                       Samples.idleS None []) eq_refl)
      as (Heq & Hmuted & _).
    cbv zeta. split; [|exact Hmuted].
    rewrite Heq. reflexivity.
  - destruct (proj1 (proj2 (toggleMute_flips_or_reports Samples.callingBobP
                              Samples.idleS None [])))
      as (_ & Hmuted & _).
    + discriminate.
    + exact Hmuted.
  - destruct (proj1 (proj2 (proj2 (toggleMute_flips_or_reports Samples.idleP
                                     Samples.callingBobS None [])))
                Samples.micOnly eq_refl)
      as (_ & Hmuted & _).
    + discriminate.
    + exact Hmuted.
  - apply (proj2 (proj2 (proj2 (toggleMute_flips_or_reports Samples.idleP
                                  Samples.idleS (Some Samples.me)
                                  [Signaling.StartCall Samples.bob audio
                                     (MediaOk Samples.micOnly) Samples.sdpA])))).
    + reflexivity.
    + reflexivity.
Defined.

(** * Further properties of the call components *)

(** ** Hanging up twice, and hang-ups that come from outside *)

Lemma broadcasts_app (eff1 eff2 : list Signaling.Effect) :
  Signaling.broadcasts (eff1 ++ eff2) =
  Signaling.broadcasts eff1 ++ Signaling.broadcasts eff2.
Proof. apply flat_map_app. Qed.

Lemma broadcasts_stopTracks (s : option MediaStream) :
  Signaling.broadcasts (Signaling.stopTracks s) = [].
Proof.
  destruct s as [[ts]|]; simpl; [|reflexivity].
  induction ts as [|t ts IH]; simpl; [reflexivity | exact IH].
Qed.

Lemma broadcasts_StopTrack (ts : list MediaStreamTrack) :
  Signaling.broadcasts (map Signaling.StopTrack ts) = [].
Proof. induction ts as [|t ts IH]; simpl; [reflexivity | exact IH]. Qed.

Lemma broadcasts_AddTrack (ts : list MediaStreamTrack) :
  Signaling.broadcasts (map Signaling.AddTrack ts) = [].
Proof. induction ts as [|t ts IH]; simpl; [reflexivity | exact IH]. Qed.

Lemma broadcasts_cleanupCall (st : Signaling.State) :
  Signaling.broadcasts (snd (Signaling.cleanupCall st)) = [].
Proof.
  unfold Signaling.cleanupCall; simpl.
  rewrite !broadcasts_app, !broadcasts_stopTracks.
  now destruct (isSome (Signaling.pcRef st)).
Qed.

(** X1.  Once [cleanupCall] has run (a hang-up that is not to be
    broadcast has been done), a further hang-up does nothing: the state
    stays and nothing is closed, stopped or sent, whether or not it was to
    be broadcast.  The same holds in the PeerJS variant. *)
Theorem hangUp_after_cleanup_does_nothing
    (second : bool) (st : Signaling.State) (stP : PeerJS.State) :
  Signaling.handleHangUp second (fst (Signaling.handleHangUp false st))
    = (fst (Signaling.handleHangUp false st), [])
  /\ PeerJS.handleHangUp (fst (PeerJS.handleHangUp stP))
       = (fst (PeerJS.handleHangUp stP), []).
Proof.
  split.
  - unfold Signaling.handleHangUp, Signaling.cleanupCall; simpl.
    now destruct second.
  - reflexivity.
Qed.

(** X2.  A [hang-up] that comes in is never answered: in no state does the
    listener put anything on the channel. *)
Theorem remote_hangUp_is_never_echoed
    (payload : Signaling.CallPayload) (st : Signaling.State) :
  Signaling.broadcasts (snd (Signaling.onHangUp payload st)) = [].
Proof.
  unfold Signaling.onHangUp.
  destruct (Signaling.user st); [|reflexivity].
  destruct (Signaling.fromCallPeer payload st); [|reflexivity].
  unfold Signaling.handleHangUp.
  pose proof (broadcasts_cleanupCall st) as H.
  destruct (Signaling.cleanupCall st) as [st1 eff]; simpl in *.
  exact H.
Qed.

(** ** What a call in progress holds *)

Lemma holdsCall_mount (u : option Profile) :
  Signaling.holdsCall u (Signaling.mount u).
Proof. intros c H. discriminate H. Qed.

Lemma holdsCall_step (u : option Profile) (st : Signaling.State)
    (ev : Signaling.Event) :
  Signaling.user st = u -> Signaling.holdsCall u st ->
  Signaling.holdsCall u (fst (Signaling.step st ev)).
Proof.
  unfold Signaling.holdsCall.
  destruct st as [us inc cip ls rs mu co pc ch]; simpl.
  intros <- Hcall.
  destruct ev; unfold_handlers; simpl in *; split_cases; simpl in *;
    intros cur Hcur; try discriminate Hcur;
    try (injection Hcur as <-; simpl; eauto 8; fail);
    try (destruct (Hcall _ Hcur) as (self & pcur & lcur & Hu & Hpc & Ht & Hls);
         subst; simpl; eauto 8; fail);
    try (destruct (Hcall _ eq_refl) as (self & pcur & lcur & Hu & Hpc & Ht & Hls);
         injection Hcur as <-; subst; simpl; eauto 8; fail).
Qed.

Lemma reachable_holdsCall (u : option Profile) (st : Signaling.State) :
  Signaling.reachable u st -> Signaling.holdsCall u st.
Proof.
  induction 1 as [|st ev Hr IH Hoff].
  - apply holdsCall_mount.
  - apply holdsCall_step; [|exact IH].
    now destruct (reachable_wellFormed _ _ Hr).
Qed.

(** X3.  In every reachable state a call is in progress exactly when a
    peer connection is held and exactly when a local stream is held; a
    remote stream is held only during a call; the connection's own
    candidates are addressed to the peer of the call; and there is a user. *)
Theorem call_in_progress_holds_its_resources
    (u : option Profile) (st : Signaling.State) :
  Signaling.reachable u st ->
  (Signaling.callInProgress st <> None <-> Signaling.pcRef st <> None)
  /\ (Signaling.callInProgress st <> None <-> Signaling.localStream st <> None)
  /\ (Signaling.remoteStream st <> None -> Signaling.callInProgress st <> None)
  /\ (forall c pc,
        Signaling.callInProgress st = Some c -> Signaling.pcRef st = Some pc ->
        Signaling.pc_target pc = Signaling.ci_with c)
  /\ (Signaling.callInProgress st <> None -> u <> None).
Proof.
  intros Hr.
  pose proof (reachable_holdsCall _ _ Hr) as Hcall.
  destruct (reachable_wellFormed _ _ Hr) as (_ & _ & _ & Hrest).
  unfold Signaling.holdsCall, Signaling.atRest in *.
  destruct (Signaling.callInProgress st) as [c|].
  - destruct (Hcall c eq_refl) as (self & pc & ls & Hu & Hpc & Ht & Hls).
    rewrite Hpc, Hls, Hu.
    repeat split; intros; try discriminate; congruence.
  - destruct (Hrest eq_refl) as (Hls & Hrs & Hpc & _).
    rewrite Hls, Hrs, Hpc.
    repeat split; intros; congruence.
Qed.

Lemma call_in_progress_holds_its_resources_witness :
  let st := fst (Signaling.run Samples.idleS
                   (firstn 4 Samples.callWithCarol)) in
  Signaling.callInProgress st <> None /\ Signaling.pcRef st <> None
  /\ Signaling.localStream st <> None.
Proof.
  cbv zeta.
  destruct (call_in_progress_holds_its_resources (Some Samples.me)
              (fst (Signaling.run Samples.idleS
                      (firstn 4 Samples.callWithCarol))))
    as (Hpc & Hls & _).
  - apply (reachable_run (Some Samples.me) Samples.idleS
             (firstn 4 Samples.callWithCarol)).
    + apply Signaling.reach_mount.
    + reflexivity.
  - assert (Hc : Signaling.callInProgress
                   (fst (Signaling.run Samples.idleS
                           (firstn 4 Samples.callWithCarol))) <> None)
      by discriminate.
    split; [exact Hc|]. split; [apply Hpc | apply Hls]; exact Hc.
Defined.

(** ** Ending a call *)

(** X4.  Hanging up during a call, from any reachable state, does not
    end it.  [handleHangUp] makes the [broadcast] call for a [hang-up] to
    the peer of the call, and that call throws: nothing is closed, no
    track is stopped, and the state is the state before, the call still
    in progress. *)
Theorem hangUp_in_call_stops_at_the_send
    (u : option Profile) (st : Signaling.State) (c : Signaling.CallInfo) :
  Signaling.reachable u st ->
  Signaling.callInProgress st = Some c ->
  exists self,
    u = Some self
    /\ Signaling.handleHangUp true st =
         (st,
          [Signaling.Broadcast Signaling.hang_up
             (Signaling.mkPayload self (Some (Signaling.ci_with c))
                None None None None)]).
Proof.
  intros Hr Hc.
  destruct (reachable_holdsCall _ _ Hr c Hc)
    as (self & pc & ls & Hu & _ & _ & _).
  destruct (reachable_wellFormed _ _ Hr) as (Hus & Hch & _ & _).
  exists self. split; [exact Hu|].
  unfold Signaling.handleHangUp, Signaling.broadcast.
  rewrite Hc, Hus, Hch, Hu. reflexivity.
Qed.

Lemma hangUp_in_call_stops_at_the_send_witness :
  Signaling.handleHangUp true Samples.callingBobS =
    (Samples.callingBobS,
     [Signaling.Broadcast Signaling.hang_up
        (Signaling.mkPayload Samples.me (Some Samples.bob) None None None None)]).
Proof.
  destruct (hangUp_in_call_stops_at_the_send (Some Samples.me)
              Samples.callingBobS
              (Signaling.mkCallInfo Samples.bob (Some audio) true))
    as (self & Hself & Heq).
  - apply (Signaling.reach_step (Some Samples.me) Samples.idleS
             (Signaling.StartCall Samples.bob audio (MediaOk Samples.micOnly)
                Samples.sdpA)).
    + apply Signaling.reach_mount.
    + reflexivity.
  - reflexivity.
  - injection Hself as <-. exact Heq.
Defined.

(** X24.  In every reachable state of the signaling variant with a call
    ringing, [denyCall] gets as far as the [broadcast] call for a
    [hang-up] to the caller and no further: that call throws, the state
    stays as it is and the call keeps ringing. *)
Theorem denyCall_stops_at_the_send
    (u : option Profile) (st : Signaling.State) (inc : Signaling.CallPayload) :
  Signaling.reachable u st ->
  Signaling.incomingCall st = Some inc ->
  exists self,
    u = Some self
    /\ Signaling.denyCall st =
         (st, [Signaling.Broadcast Signaling.hang_up
                 (Signaling.mkPayload self (Some (Signaling.pl_from inc))
                    None None None None)]).
Proof.
  intros Hreach Hinc.
  destruct (reachable_wellFormed _ _ Hreach) as (Hu & Hch & Hsome & _).
  destruct u as [self|]; [|exfalso; apply Hsome; congruence].
  exists self. split; [reflexivity|].
  unfold Signaling.denyCall, Signaling.broadcast.
  now rewrite Hinc, Hu, Hch.
Qed.

Lemma denyCall_stops_at_the_send_witness :
  Signaling.denyCall Samples.ringingS =
    (Samples.ringingS,
     [Signaling.Broadcast Signaling.hang_up
        (Signaling.mkPayload Samples.me (Some Samples.carol)
           None None None None)]).
Proof.
  destruct (denyCall_stops_at_the_send (Some Samples.me) Samples.ringingS
              Samples.offerFromCarol)
    as (self & Hself & Heq).
  - apply (Signaling.reach_step (Some Samples.me) Samples.idleS
             (Signaling.CallOffer Samples.offerFromCarol)).
    + apply Signaling.reach_mount.
    + reflexivity.
  - reflexivity.
  - injection Hself as <-. exact Heq.
Defined.

(** X5.  A [hang-up] sent by the peer of the call in progress, in any
    reachable state: the connection is closed, every track of both streams
    is stopped, nothing is sent, and the component is back in the state it
    was mounted in, whoever the [hang-up] was addressed to. *)
Theorem remote_hangUp_releases_everything
    (u : option Profile) (st : Signaling.State) (c : Signaling.CallInfo)
    (payload : Signaling.CallPayload) :
  Signaling.reachable u st ->
  Signaling.callInProgress st = Some c ->
  id (Signaling.pl_from payload) = id (Signaling.ci_with c) ->
  Signaling.onHangUp payload st =
    (Signaling.mount u,
     Signaling.ClosePeerConnection
     :: Signaling.stopTracks (Signaling.localStream st)
     ++ Signaling.stopTracks (Signaling.remoteStream st)).
Proof.
  intros Hr Hc Hfrom.
  destruct (reachable_holdsCall _ _ Hr c Hc)
    as (self & pc & ls & Hu & Hpc & _ & _).
  destruct (reachable_wellFormed _ _ Hr) as (Hus & Hch & _ & _).
  unfold Signaling.onHangUp, Signaling.fromCallPeer,
    Signaling.fromIncomingCaller, Signaling.handleHangUp,
    Signaling.cleanupCall, Signaling.mount.
  rewrite Hc, Hus, Hch, Hpc, Hu, Hfrom, String.eqb_refl; simpl.
  now destruct (Signaling.incomingCall st) as [inc|];
    [destruct (_ =? _)%string|].
Qed.

Lemma remote_hangUp_releases_everything_witness :
  let st := fst (Signaling.run Samples.idleS
                   (firstn 3 Samples.callWithCarol)) in
  Signaling.onHangUp Samples.hangUpFromCarol st =
    (Samples.idleS,
     [Signaling.ClosePeerConnection;
      Signaling.StopTrack Samples.mic;
      Signaling.StopTrack Samples.mic]).
Proof.
  apply (remote_hangUp_releases_everything (Some Samples.me)
           (fst (Signaling.run Samples.idleS (firstn 3 Samples.callWithCarol)))
           (Signaling.mkCallInfo Samples.carol (Some audio) false)).
  - apply (reachable_run (Some Samples.me) Samples.idleS
             (firstn 3 Samples.callWithCarol)).
    + apply Signaling.reach_mount.
    + reflexivity.
  - reflexivity.
  - reflexivity.
Defined.

(** ** The mute and camera buttons *)

Lemma flipTrack_flipTrack (t : MediaStreamTrack) : flipTrack (flipTrack t) = t.
Proof. destruct t as [l k e]; unfold flipTrack; simpl. now rewrite negb_involutive. Qed.

Lemma flipAudio_flipAudio (s : MediaStream) : flipAudio (flipAudio s) = s.
Proof.
  destruct s as [ts]; unfold flipAudio; simpl. f_equal.
  rewrite map_map. rewrite <- (map_id ts) at 2. apply map_ext. intros t.
  destruct (isAudioTrack t) eqn:Ha.
  - replace (isAudioTrack (flipTrack t)) with true by exact (eq_sym Ha).
    apply flipTrack_flipTrack.
  - now rewrite Ha.
Qed.

Lemma flipVideo_flipVideo (s : MediaStream) : flipVideo (flipVideo s) = s.
Proof.
  destruct s as [ts]; unfold flipVideo; simpl. f_equal.
  rewrite map_map. rewrite <- (map_id ts) at 2. apply map_ext. intros t.
  destruct (isVideoTrack t) eqn:Hv.
  - replace (isVideoTrack (flipTrack t)) with true by exact (eq_sym Hv).
    apply flipTrack_flipTrack.
  - now rewrite Hv.
Qed.

Lemma flipAudio_flipVideo (s : MediaStream) :
  flipAudio (flipVideo s) = flipVideo (flipAudio s).
Proof.
  destruct s as [ts]; unfold flipAudio, flipVideo; simpl. f_equal.
  rewrite !map_map. apply map_ext. intros [l k e].
  destruct k; reflexivity.
Qed.

Lemma option_map_involutive {A : Type} (f : A -> A) (o : option A) :
  (forall a, f (f a) = a) -> option_map f (option_map f o) = o.
Proof. intros H. destruct o; simpl; [now rewrite H | reflexivity]. Qed.

Lemma getVideoTracks_flipVideo (s : MediaStream) :
  getVideoTracks (flipVideo s) = map flipTrack (getVideoTracks s).
Proof.
  destruct s as [ts]; unfold getVideoTracks; simpl.
  induction ts as [|t ts IH]; simpl; [reflexivity|].
  destruct (isVideoTrack t) eqn:Hv; simpl.
  - replace (isVideoTrack (flipTrack t)) with true by exact (eq_sym Hv).
    simpl. now rewrite IH.
  - rewrite Hv. exact IH.
Qed.

(** X10.  In the signaling variant pressing mute twice, or camera twice,
    gives back the very state one started from, tracks included, and the
    two buttons can be pressed in either order with the same result. *)
Theorem toggles_undo_and_commute (st : Signaling.State) :
  fst (Signaling.toggleMute (fst (Signaling.toggleMute st))) = st
  /\ fst (Signaling.toggleCamera (fst (Signaling.toggleCamera st))) = st
  /\ fst (Signaling.toggleMute (fst (Signaling.toggleCamera st)))
       = fst (Signaling.toggleCamera (fst (Signaling.toggleMute st))).
Proof.
  destruct st as [us inc cip ls rs mu co pc ch].
  unfold Signaling.toggleMute, Signaling.toggleCamera; simpl.
  unfold Signaling.setIsMuted, Signaling.setIsCamOff, Signaling.setLocalStream;
    simpl.
  rewrite !negb_involutive.
  rewrite (option_map_involutive flipAudio ls flipAudio_flipAudio).
  rewrite (option_map_involutive flipVideo ls flipVideo_flipVideo).
  repeat split.
  destruct ls as [s|]; simpl; [|reflexivity].
  now rewrite flipAudio_flipVideo.
Qed.

(** X11.  In the PeerJS variant, with an audio track in the local stream
    pressing mute twice gives back the state one started from, whether or
    not there is a video track; and with a video track pressing camera
    twice does, whether or not there is an audio track. *)
Theorem toggles_undo_with_tracks (stP : PeerJS.State) :
  (PeerJS.audioTracksOf (PeerJS.localStream stP) <> [] ->
   fst (PeerJS.toggleMute (fst (PeerJS.toggleMute stP))) = stP)
  /\ (PeerJS.videoTracksOf (PeerJS.localStream stP) <> [] ->
      fst (PeerJS.toggleCamera (fst (PeerJS.toggleCamera stP))) = stP).
Proof.
  destruct stP as [us inc cip ls rs mu co me pr ac]; simpl.
  destruct ls as [s|]; simpl; [|split; congruence].
  split.
  - intros Ha. unfold PeerJS.toggleMute; simpl.
    destruct (getAudioTracks s) as [|t ts] eqn:Hs; [congruence|]; simpl.
    rewrite getAudioTracks_flipAudio, Hs; simpl.
    unfold PeerJS.setIsMuted, PeerJS.setLocalStream; simpl.
    now rewrite negb_involutive, flipAudio_flipAudio.
  - intros Hv. unfold PeerJS.toggleCamera; simpl.
    destruct (getVideoTracks s) as [|t ts] eqn:Hs; [congruence|]; simpl.
    rewrite getVideoTracks_flipVideo, Hs; simpl.
    unfold PeerJS.setIsCamOff, PeerJS.setLocalStream; simpl.
    now rewrite negb_involutive, flipVideo_flipVideo.
Qed.

(** An audio call, with a microphone and no camera, and a video call. *)
Lemma toggles_undo_with_tracks_witness :
  PeerJS.videoTracksOf (PeerJS.localStream Samples.callingBobP) = []
  /\ fst (PeerJS.toggleMute (fst (PeerJS.toggleMute Samples.callingBobP)))
       = Samples.callingBobP
  /\ fst (PeerJS.toggleMute (fst (PeerJS.toggleMute Samples.videoCallToBob)))
       = Samples.videoCallToBob
  /\ fst (PeerJS.toggleCamera (fst (PeerJS.toggleCamera Samples.videoCallToBob)))
       = Samples.videoCallToBob.
Proof.
  split; [reflexivity|]. split; [|split].
  - apply (proj1 (toggles_undo_with_tracks Samples.callingBobP)). discriminate.
  - apply (proj1 (toggles_undo_with_tracks Samples.videoCallToBob)). discriminate.
  - apply (proj2 (toggles_undo_with_tracks Samples.videoCallToBob)). discriminate.
Defined.

Lemma toggleMuteTimes_without_stream (st : PeerJS.State) (n : nat) :
  PeerJS.localStream st = None ->
  PeerJS.localStream (PeerJS.toggleMuteTimes n st) = None
  /\ PeerJS.isMuted (PeerJS.toggleMuteTimes n st) = PeerJS.isMuted st
  /\ PeerJS.callInProgress (PeerJS.toggleMuteTimes n st)
       = PeerJS.callInProgress st
  /\ PeerJS.mediaError (PeerJS.toggleMuteTimes n st) =
       match n with
       | O => PeerJS.mediaError st
       | S _ => Some "No microphone track available."
       end.
Proof.
  intros Hl. unfold PeerJS.toggleMuteTimes.
  induction n as [|n (IHl & IHm & IHc & _)]; [repeat split; assumption|].
  simpl Nat.iter.
  remember (Nat.iter n (fun s => fst (PeerJS.toggleMute s)) st) as sn.
  unfold PeerJS.toggleMute. rewrite IHl. simpl.
  repeat split; assumption.
Qed.

(** X12.  A call placed without media cannot be unmuted.  After a
    [startCall] whose media request failed, the mute flag is on and there
    is no local stream, and however often mute is pressed both stay so and
    the call stays in progress; from the first press on the error shown is
    that there is no microphone track. *)
Theorem call_without_media_stays_muted
    (targetUser : Profile) (type : CallType) (name : string)
    (stP : PeerJS.State) (self : Profile) (n : nat) :
  PeerJS.user stP = Some self ->
  PeerJS.callInProgress stP = None ->
  PeerJS.peerRef stP = true ->
  let st1 := fst (PeerJS.startCall targetUser type (MediaErr name) stP) in
  let stn := PeerJS.toggleMuteTimes n st1 in
  PeerJS.isMuted stn = true
  /\ PeerJS.localStream stn = None
  /\ PeerJS.callInProgress stn = Some (PeerJS.mkCallInfo targetUser type true)
  /\ PeerJS.mediaError stn =
       Some (match n with
             | O => PeerJS.mediaErrorMessage type name
             | S _ => "No microphone track available."
             end).
Proof.
  intros Hu Hc Hp; cbv zeta.
  set (st1 := fst (PeerJS.startCall targetUser type (MediaErr name) stP)).
  assert (H1 : PeerJS.isMuted st1 = true
               /\ PeerJS.localStream st1 = None
               /\ PeerJS.callInProgress st1 =
                    Some (PeerJS.mkCallInfo targetUser type true)
               /\ PeerJS.mediaError st1 =
                    Some (PeerJS.mediaErrorMessage type name)).
  { unfold st1, PeerJS.startCall. rewrite Hu, Hc, Hp.
    destruct type; repeat split. }
  destruct H1 as (Hm & Hl & Hcall & He).
  pose proof (toggleMuteTimes_without_stream st1 n Hl) as (Hl' & Hm' & Hc' & He').
  rewrite Hm', Hc', Hm, Hcall. repeat split; try assumption.
  destruct n; [now rewrite He', He | now rewrite He'].
Qed.

Lemma call_without_media_stays_muted_witness :
  let stn := PeerJS.toggleMuteTimes 3
               (fst (PeerJS.startCall Samples.bob audio
                       (MediaErr "NotAllowedError") Samples.idleP)) in
  PeerJS.isMuted stn = true
  /\ PeerJS.localStream stn = None
  /\ PeerJS.callInProgress stn = Some (PeerJS.mkCallInfo Samples.bob audio true)
  /\ PeerJS.mediaError stn = Some "No microphone track available.".
Proof.
  apply (call_without_media_stays_muted Samples.bob audio "NotAllowedError"
           Samples.idleP Samples.me 3); reflexivity.
Defined.

(** ** Which signals are listened to *)

(** X13.  An offer, an answer or a candidate that names no addressee, or
    an addressee with another id than the user's, is ignored in every
    state: nothing changes and nothing is done. *)
Theorem signals_for_others_are_ignored
    (payload : Signaling.CallPayload) (st : Signaling.State) :
  (forall self t,
      Signaling.user st = Some self -> Signaling.pl_to payload = Some t ->
      id t <> id self) ->
  Signaling.onCallOffer payload st = (st, [])
  /\ Signaling.onCallAnswer payload st = (st, [])
  /\ Signaling.onIceCandidate payload st = (st, []).
Proof.
  intros Hto.
  unfold Signaling.onCallOffer, Signaling.onCallAnswer,
    Signaling.onIceCandidate.
  destruct (Signaling.user st) as [self|]; [|repeat split].
  assert (Hme : Signaling.toMe self payload = false).
  { unfold Signaling.toMe.
    destruct (Signaling.pl_to payload) as [t|]; [|reflexivity].
    apply String.eqb_neq. now apply Hto. }
  rewrite Hme. repeat split.
Qed.

Lemma signals_for_others_are_ignored_witness :
  Signaling.onCallOffer Samples.offerToDave Samples.idleS = (Samples.idleS, [])
  /\ Signaling.onCallAnswer Samples.offerToDave Samples.callingBobS
       = (Samples.callingBobS, [])
  /\ Signaling.onIceCandidate Samples.offerToDave Samples.callingBobS
       = (Samples.callingBobS, []).
Proof.
  assert (H : forall st, Signaling.user st = Some Samples.me ->
                forall self t, Signaling.user st = Some self ->
                  Signaling.pl_to Samples.offerToDave = Some t ->
                  id t <> id self).
  { intros st Hme self t Hu Ht. rewrite Hme in Hu.
    injection Hu as <-. injection Ht as <-. discriminate. }
  split; [|split].
  - apply (signals_for_others_are_ignored Samples.offerToDave Samples.idleS).
    now apply H.
  - apply (signals_for_others_are_ignored Samples.offerToDave
             Samples.callingBobS).
    now apply H.
  - apply (signals_for_others_are_ignored Samples.offerToDave
             Samples.callingBobS).
    now apply H.
Defined.

(** ** A call that rings *)

(** X15.  A ringing call is never replaced by another one: whatever
    happens next, [incomingCall] either still holds the same offer or is
    empty. *)
Theorem ringing_call_is_never_replaced
    (st : Signaling.State) (ev : Signaling.Event)
    (inc : Signaling.CallPayload) :
  Signaling.incomingCall st = Some inc ->
  Signaling.incomingCall (fst (Signaling.step st ev)) = Some inc
  \/ Signaling.incomingCall (fst (Signaling.step st ev)) = None.
Proof.
  destruct st as [us i cip ls rs mu co pc ch]; simpl. intros ->.
  destruct ev; unfold_handlers; simpl; split_cases; simpl; auto;
    rewrite ?andb_false_r in *; discriminate.
Qed.

Lemma ringing_call_is_never_replaced_witness :
  Signaling.incomingCall
    (fst (Signaling.step Samples.ringingS
            (Signaling.CallOffer Samples.offerFromBob)))
    = Some Samples.offerFromCarol.
Proof.
  destruct (ringing_call_is_never_replaced Samples.ringingS
              (Signaling.CallOffer Samples.offerFromBob)
              Samples.offerFromCarol eq_refl) as [H|H].
  - exact H.
  - discriminate H.
Defined.

(** X16.  In the PeerJS variant ring, then deny, leaves no trace in the
    component.  With no call in progress and none ringing, a call that
    comes in followed by [denyCall] leads back to exactly the state
    before it, and all that has been done is [close] on that call's
    connection. *)
Theorem ring_then_deny_leaves_no_trace
    (stP : PeerJS.State) (call : PeerJS.MediaConnection) :
  PeerJS.callInProgress stP = None ->
  PeerJS.incomingCall stP = None ->
  PeerJS.incomingCall (fst (PeerJS.onCall call stP)) <> None
  /\ PeerJS.denyCall (fst (PeerJS.onCall call stP))
       = (stP, [PeerJS.CloseConnection call]).
Proof.
  intros HcP HiP.
  destruct stP as [us inc cip ls rs mu co me pr ac]; simpl in *; subst.
  split; [discriminate | reflexivity].
Qed.

Lemma ring_then_deny_leaves_no_trace_witness :
  PeerJS.incomingCall (fst (PeerJS.onCall Samples.callFromCarol Samples.idleP))
    <> None
  /\ PeerJS.denyCall (fst (PeerJS.onCall Samples.callFromCarol Samples.idleP))
       = (Samples.idleP, [PeerJS.CloseConnection Samples.callFromCarol]).
Proof.
  apply (ring_then_deny_leaves_no_trace Samples.idleP Samples.callFromCarol);
    reflexivity.
Defined.

(** * The sign-in form *)

Lemma trimStart_nil (s : JsString) :
  trimStart s = [] <-> forallb isWhiteSpace s = true.
Proof.
  induction s as [|c s IH]; simpl; [tauto|].
  destruct (isWhiteSpace c); simpl; [exact IH|].
  split; discriminate.
Qed.

Lemma trimStart_head (s : JsString) (c : N) (rest : JsString) :
  trimStart s = c :: rest -> isWhiteSpace c = false /\ In c s.
Proof.
  induction s as [|d s IH]; simpl; [discriminate|].
  destruct (isWhiteSpace d) eqn:Hd.
  - intros H. destruct (IH H) as [Hc Hin]. auto.
  - intros H. injection H as -> _. auto.
Qed.

Lemma forallb_rev {A : Type} (f : A -> bool) (l : list A) :
  forallb f (rev l) = forallb f l.
Proof.
  induction l as [|a l IH]; simpl; [reflexivity|].
  rewrite forallb_app, IH; simpl. rewrite andb_true_r. apply andb_comm.
Qed.

Lemma trim_empty (s : JsString) :
  isEmpty (trim s) = true <-> forallb isWhiteSpace s = true.
Proof.
  unfold trim, trimEnd. split.
  - intros He.
    destruct (rev (trimStart (rev (trimStart s)))) as [|c r] eqn:Hr;
      [|discriminate He].
    apply (f_equal (@rev N)) in Hr. rewrite rev_involutive in Hr; simpl in Hr.
    apply trimStart_nil in Hr. rewrite forallb_rev in Hr.
    destruct (trimStart s) as [|d rest] eqn:Hs.
    + now apply trimStart_nil.
    + destruct (trimStart_head _ _ _ Hs) as [Hd _].
      simpl in Hr. rewrite Hd in Hr. discriminate Hr.
  - intros Hall. apply trimStart_nil in Hall. now rewrite Hall.
Qed.

Lemma trim_visible (s : JsString) :
  isEmpty (trim s) = false <-> Auth.hasVisibleChar s.
Proof.
  unfold Auth.hasVisibleChar. split.
  - intros He.
    destruct (forallb isWhiteSpace s) eqn:Hall.
    + apply trim_empty in Hall. congruence.
    + clear He. induction s as [|c s IH]; simpl in Hall; [discriminate|].
      destruct (isWhiteSpace c) eqn:Hc.
      * destruct (IH Hall) as (d & Hin & Hd). exists d. simpl; auto.
      * exists c. simpl; auto.
  - intros (c & Hin & Hc).
    destruct (isEmpty (trim s)) eqn:He; [|reflexivity].
    apply trim_empty in He.
    rewrite forallb_forall in He. rewrite (He c Hin) in Hc. discriminate.
Qed.

Lemma includes_space (s : JsString) :
  includes s (js " ") = true <-> In 32%N s.
Proof.
  change (js " ") with [32%N].
  induction s as [|c s IH]; cbn [includes startsWith In].
  - split; [discriminate | tauto].
  - rewrite orb_true_iff, IH.
    replace (startsWith s []) with true by now destruct s.
    rewrite andb_true_r, N.eqb_eq.
    split; intros [H|H]; auto.
Qed.

Lemma errorFor_not_empty (err : Auth.Thrown) : Auth.errorFor err <> [].
Proof.
  unfold Auth.errorFor.
  repeat match goal with
    | |- context [if ?b then _ else _] => destruct b; [discriminate|]
    end.
  destruct (Auth.message err) as [[|c rest]|]; discriminate.
Qed.

(** X17.  In sign-up mode [signUp] is called exactly when the username
    has a character that is not white space, the display name has one
    too, and the username has no space character in it.  When it is
    called it gets the four fields of the form as they are, and [signIn]
    is never called. *)
Theorem signUp_only_with_proper_names (outcome : Auth.Outcome) (f : Auth.Form) :
  Auth.isSignUp f = true ->
  ((exists e p u d,
       In (Auth.SignUp e p u d) (snd (Auth.handleSubmit outcome f)))
   <-> Auth.hasVisibleChar (Auth.username f)
       /\ Auth.hasVisibleChar (Auth.displayName f)
       /\ ~ In 32%N (Auth.username f))
  /\ (forall e p u d,
        In (Auth.SignUp e p u d) (snd (Auth.handleSubmit outcome f)) ->
        e = Auth.email f /\ p = Auth.password f /\ u = Auth.username f
        /\ d = Auth.displayName f)
  /\ (forall e p, ~ In (Auth.SignIn e p) (snd (Auth.handleSubmit outcome f))).
Proof.
  intros Hup. unfold Auth.handleSubmit. rewrite Hup.
  pose proof (trim_visible (Auth.username f)) as Hu.
  pose proof (trim_visible (Auth.displayName f)) as Hd.
  pose proof (includes_space (Auth.username f)) as Hs.
  assert (Hnone : forall P : Prop,
             ~ P ->
             ((exists e p u d, In (Auth.SignUp e p u d) []) <-> P)
             /\ (forall e p u d,
                   In (Auth.SignUp e p u d) [] ->
                   e = Auth.email f /\ p = Auth.password f
                   /\ u = Auth.username f /\ d = Auth.displayName f)
             /\ (forall e p, ~ In (Auth.SignIn e p) [])).
  { intros P HP. split; [|split].
    - split; [intros (e & p & u & d & H); destruct H | intros H; now apply HP in H].
    - intros e p u d H; destruct H.
    - intros e p H; exact H. }
  destruct (isEmpty (trim (Auth.username f))) eqn:Eu.
  { apply Hnone. intros (Hv & _). apply Hu in Hv. discriminate. }
  destruct (isEmpty (trim (Auth.displayName f))) eqn:Ed.
  { apply Hnone. intros (_ & Hv & _). apply Hd in Hv. discriminate. }
  destruct (includes (Auth.username f) (js " ")) eqn:Es.
  { apply Hnone. intros (_ & _ & Hno). apply Hno, Hs. reflexivity. }
  clear Hnone.
  assert (Hok : Auth.hasVisibleChar (Auth.username f)
                /\ Auth.hasVisibleChar (Auth.displayName f)
                /\ ~ In 32%N (Auth.username f)).
  { split; [now apply Hu|]. split; [now apply Hd|].
    intros Hin. apply Hs in Hin. discriminate. }
  destruct outcome as [|err]; cbn [snd]; (split; [|split]).
  - split; [intros _; exact Hok|].
    intros _. exists (Auth.email f), (Auth.password f), (Auth.username f),
      (Auth.displayName f). now left.
  - intros e p u d [H|[H|H]]; [|discriminate H|destruct H].
    injection H as <- <- <- <-. repeat split.
  - intros e p [H|[H|H]]; [discriminate H|discriminate H|exact H].
  - split; [intros _; exact Hok|].
    intros _. exists (Auth.email f), (Auth.password f), (Auth.username f),
      (Auth.displayName f). now left.
  - intros e p u d [H|H]; [|destruct H].
    injection H as <- <- <- <-. repeat split.
  - intros e p [H|H]; [discriminate H|exact H].
Qed.

Lemma signUp_only_with_proper_names_witness :
  (exists e p u d,
      In (Auth.SignUp e p u d)
         (snd (Auth.handleSubmit Auth.Resolved Samples.signUpForm)))
  /\ ~ (exists e p u d,
          In (Auth.SignUp e p u d)
             (snd (Auth.handleSubmit Auth.Resolved Samples.spacedForm))).
Proof.
  split.
  - apply (proj1 (signUp_only_with_proper_names Auth.Resolved
                    Samples.signUpForm eq_refl)).
    split; [|split].
    + exists 108%N. split; [now left | reflexivity].
    + exists 76%N. split; [now left | reflexivity].
    + vm_compute. intros H.
      repeat (destruct H as [H|H]; [discriminate H|]). exact H.
  - intros H.
    apply (proj1 (signUp_only_with_proper_names Auth.Resolved
                    Samples.spacedForm eq_refl)) in H.
    destruct H as (_ & _ & Hno). apply Hno.
    vm_compute. tauto.
Defined.

(** X18.  After [handleSubmit] the form is never left loading.  The error
    message is empty exactly when [signUp] or [signIn] was called and did
    not throw; so every submit that is refused or fails shows a message,
    also when the error thrown has an empty message or none.  [success]
    is on exactly when that happened in sign-up mode. *)
Theorem submit_ends_with_error_or_success
    (outcome : Auth.Outcome) (f : Auth.Form) :
  Auth.isLoading (fst (Auth.handleSubmit outcome f)) = false
  /\ (Auth.error (fst (Auth.handleSubmit outcome f)) = []
      <-> outcome = Auth.Resolved /\ snd (Auth.handleSubmit outcome f) <> [])
  /\ (Auth.success (fst (Auth.handleSubmit outcome f)) = true
      <-> Auth.isSignUp f = true /\ outcome = Auth.Resolved
          /\ snd (Auth.handleSubmit outcome f) <> []).
Proof.
  unfold Auth.handleSubmit.
  pose proof errorFor_not_empty as Hne.
  destruct (Auth.isSignUp f);
    [destruct (isEmpty (trim (Auth.username f)));
     [|destruct (isEmpty (trim (Auth.displayName f)));
       [|destruct (includes (Auth.username f) (js " "))]]|];
    try destruct outcome as [|err]; simpl;
    (split; [reflexivity|]); split; split;
    try (intros (? & ? & ?)); try (intros (? & ?)); try intros ?;
    try congruence; try discriminate;
    try (exfalso; eapply Hne; eassumption);
    repeat split; discriminate.
Qed.

(** * The list of conversations *)

Lemma jsLt_irrefl (a : JsString) : jsLt a a = false.
Proof.
  induction a as [|x a IH]; simpl; [reflexivity|].
  now rewrite N.ltb_irrefl.
Qed.

Lemma jsLt_trans (a b c : JsString) :
  jsLt a b = true -> jsLt b c = true -> jsLt a c = true.
Proof.
  revert b c. induction a as [|x a IH]; intros [|y b] [|z c]; simpl;
    try discriminate; try reflexivity.
  destruct (N.ltb_spec x y), (N.ltb_spec y x), (N.ltb_spec y z),
    (N.ltb_spec z y), (N.ltb_spec x z), (N.ltb_spec z x);
    try discriminate; try reflexivity; try lia.
  apply IH.
Qed.

Lemma mapGet_None (k : string) (m : Messages.ConvMap) :
  Messages.mapGet k m = None <-> ~ In k (map fst m).
Proof.
  induction m as [|[k' v] m IH]; simpl; [tauto|].
  destruct (String.eqb_spec k k') as [->|Hne].
  - split; [discriminate | intros H; exfalso; apply H; now left].
  - rewrite IH. split; [intros H [E|E]; congruence | tauto].
Qed.

Lemma mapGet_In (k : string) (c : Messages.Conv) (m : Messages.ConvMap) :
  Messages.mapGet k m = Some c -> In (k, c) m.
Proof.
  induction m as [|[k' v] m IH]; simpl; [discriminate|].
  destruct (String.eqb_spec k k') as [->|Hne].
  - intros H. injection H as ->. now left.
  - intros H. right. now apply IH.
Qed.

Lemma In_mapGet (k : string) (c : Messages.Conv) (m : Messages.ConvMap) :
  NoDup (map fst m) -> In (k, c) m -> Messages.mapGet k m = Some c.
Proof.
  induction m as [|[k' v] m IH]; simpl; [tauto|].
  intros Hnd [H|H].
  - injection H as -> ->. now rewrite String.eqb_refl.
  - inversion Hnd as [|? ? Hnot Hnd']; subst.
    destruct (String.eqb_spec k k') as [->|Hne].
    + exfalso. apply Hnot. now apply (in_map fst) in H.
    + now apply IH.
Qed.

Lemma mapSet_keys (k : string) (v : Messages.Conv) (m : Messages.ConvMap) :
  map fst (Messages.mapSet k v m) =
  match Messages.mapGet k m with
  | Some _ => map fst m
  | None => map fst m ++ [k]
  end.
Proof.
  induction m as [|[k' v'] m IH]; simpl; [reflexivity|].
  destruct (String.eqb_spec k k') as [->|Hne]; simpl; [reflexivity|].
  rewrite IH. now destruct (Messages.mapGet k m).
Qed.

Lemma mapSet_In (k : string) (v : Messages.Conv) (m : Messages.ConvMap)
    (k' : string) (c : Messages.Conv) :
  NoDup (map fst m) ->
  (In (k', c) (Messages.mapSet k v m)
   <-> (k' = k /\ c = v) \/ (k' <> k /\ In (k', c) m)).
Proof.
  induction m as [|[k0 v0] m IH]; simpl; intros Hnd.
  - split; [intros [H|[]]; injection H as <- <-; auto | intros [[-> ->]|[_ []]]; auto].
  - inversion Hnd as [|? ? Hnot Hnd']; subst.
    destruct (String.eqb_spec k k0) as [->|Hne]; simpl.
    + split.
      * intros [H|H]; [injection H as <- <-; auto|].
        right. split; [|now right].
        intros ->. apply Hnot. now apply (in_map fst) in H.
      * intros [[-> ->]|[Hk [H|H]]]; auto.
        injection H as -> _. congruence.
    + rewrite (IH Hnd'). split.
      * intros [H|[H|H]]; auto.
        -- injection H as <- <-. right. split; [congruence | now left].
        -- destruct H as [Hk H]. right. auto.
      * intros [H|[Hk [H|H]]]; auto.
Qed.

Lemma convMapOf_snoc (userId : string) (data : list Messages.Msg)
    (msg : Messages.Msg) :
  Messages.convMapOf userId (data ++ [msg]) =
  Messages.addMessage userId (Messages.convMapOf userId data) msg.
Proof. unfold Messages.convMapOf. now rewrite fold_left_app. Qed.

(** Everything the [forEach] keeps true of [convMap]. *)
Lemma convMapOf_invariant (userId : string) (data : list Messages.Msg) :
  let m := Messages.convMapOf userId data in
  NoDup (map fst m)
  /\ (forall k c, In (k, c) m ->
        id (Messages.profile c) = k
        /\ (exists msg, In msg data
              /\ Messages.other userId msg = Some (Messages.profile c)
              /\ Messages.created_at msg = Messages.latest c)
        /\ (forall msg o, In msg data -> Messages.other userId msg = Some o ->
              id o = k ->
              jsGt (Messages.created_at msg) (Messages.latest c) = false))
  /\ (forall msg o, In msg data -> Messages.other userId msg = Some o ->
        In (id o) (map fst m)).
Proof.
  cbv zeta. induction data as [|msg data IH] using rev_ind.
  - simpl. split; [constructor|]. split; [intros k c []|intros msg o []].
  - rewrite convMapOf_snoc.
    destruct IH as (Hnd & Hin & Hall).
    set (m := Messages.convMapOf userId data) in *.
    assert (Hkeep : NoDup (map fst m)
      /\ (forall k c, In (k, c) m ->
            id (Messages.profile c) = k
            /\ (exists msg0, In msg0 (data ++ [msg])
                  /\ Messages.other userId msg0 = Some (Messages.profile c)
                  /\ Messages.created_at msg0 = Messages.latest c)
            /\ (forall msg0 o, In msg0 data ->
                  Messages.other userId msg0 = Some o -> id o = k ->
                  jsGt (Messages.created_at msg0) (Messages.latest c) = false))
      /\ (forall msg0 o, In msg0 data ->
            Messages.other userId msg0 = Some o -> In (id o) (map fst m))).
    { split; [exact Hnd|]. split; [|exact Hall].
      intros k c H. destruct (Hin k c H) as (Hid & (m0 & Hm0 & Ho & Hc) & Hmax).
      split; [exact Hid|]. split; [|exact Hmax].
      exists m0. split; [apply in_or_app; now left | auto]. }
    clear Hin Hall. destruct Hkeep as (_ & Hin & Hall).
    unfold Messages.addMessage.
    destruct (Messages.other userId msg) as [o|] eqn:Ho.
    2:{ split; [exact Hnd|]. split.
        - intros k c H. destruct (Hin k c H) as (Hid & Hex & Hmax).
          split; [exact Hid|]. split; [exact Hex|].
          intros msg0 o0 Hm0 Ho0 Hk.
          apply in_app_or in Hm0 as [Hm0|[<-|[]]]; [eauto | congruence].
        - intros msg0 o0 Hm0 Ho0.
          apply in_app_or in Hm0 as [Hm0|[<-|[]]]; [eauto | congruence]. }
    assert (Hset : forall existing,
      (Messages.mapGet (id o) m = None
       \/ (Messages.mapGet (id o) m = Some existing
           /\ jsGt (Messages.created_at msg) (Messages.latest existing) = true)) ->
      let m' := Messages.mapSet (id o)
                  (Messages.mkConv o (Messages.created_at msg)) m in
      NoDup (map fst m')
      /\ (forall k c, In (k, c) m' ->
            id (Messages.profile c) = k
            /\ (exists msg0, In msg0 (data ++ [msg])
                  /\ Messages.other userId msg0 = Some (Messages.profile c)
                  /\ Messages.created_at msg0 = Messages.latest c)
            /\ (forall msg0 o0, In msg0 (data ++ [msg]) ->
                  Messages.other userId msg0 = Some o0 -> id o0 = k ->
                  jsGt (Messages.created_at msg0) (Messages.latest c) = false))
      /\ (forall msg0 o0, In msg0 (data ++ [msg]) ->
            Messages.other userId msg0 = Some o0 -> In (id o0) (map fst m'))).
    { intros existing Hcase; cbv zeta. split; [|split].
      - rewrite mapSet_keys.
        destruct (Messages.mapGet (id o) m) eqn:Hg; [exact Hnd|].
        apply mapGet_None in Hg.
        apply NoDup_rev in Hnd. rewrite <- rev_involutive.
        apply NoDup_rev. rewrite rev_app_distr; simpl.
        constructor; [rewrite <- in_rev; exact Hg | exact Hnd].
      - intros k c H. apply (mapSet_In _ _ _ _ _ Hnd) in H.
        destruct H as [[-> ->]|[Hk H]]; simpl.
        + split; [reflexivity|]. split.
          * exists msg. split; [apply in_or_app; right; now left | auto].
          * intros msg0 o0 Hm0 Ho0 Hk.
            apply in_app_or in Hm0 as [Hm0|[<-|[]]].
            -- destruct Hcase as [Hg|[Hg Hnew]].
               ++ exfalso. apply mapGet_None in Hg. apply Hg.
                  rewrite <- Hk. eapply Hall; eassumption.
               ++ apply mapGet_In in Hg.
                  destruct (Hin _ _ Hg) as (_ & _ & Hmax).
                  specialize (Hmax msg0 o0 Hm0 Ho0 Hk).
                  unfold jsGt in *.
                  destruct (jsLt (Messages.created_at msg)
                              (Messages.created_at msg0)) eqn:Hlt;
                    [|reflexivity].
                  rewrite (jsLt_trans _ _ _ Hnew Hlt) in Hmax. discriminate.
            -- unfold jsGt. apply jsLt_irrefl.
        + destruct (Hin k c H) as (Hid & Hex & Hmax).
          split; [exact Hid|]. split; [exact Hex|].
          intros msg0 o0 Hm0 Ho0 Hk0.
          apply in_app_or in Hm0 as [Hm0|[<-|[]]]; [eauto|].
          rewrite Ho in Ho0. injection Ho0 as <-. congruence.
      - intros msg0 o0 Hm0 Ho0. rewrite mapSet_keys.
        apply in_app_or in Hm0 as [Hm0|[<-|[]]].
        + specialize (Hall msg0 o0 Hm0 Ho0).
          destruct (Messages.mapGet (id o) m); [exact Hall|].
          apply in_or_app; now left.
        + rewrite Ho in Ho0. injection Ho0 as <-.
          destruct (Messages.mapGet (id o) m) eqn:Hg.
          * apply mapGet_In in Hg. now apply (in_map fst) in Hg.
          * apply in_or_app; right; now left. }
    destruct (Messages.mapGet (id o) m) as [existing|] eqn:Hg.
    + destruct (jsGt (Messages.created_at msg) (Messages.latest existing))
        eqn:Hnew.
      * apply (Hset existing). right. auto.
      * split; [exact Hnd|]. split.
        -- intros k c H. destruct (Hin k c H) as (Hid & Hex & Hmax).
           split; [exact Hid|]. split; [exact Hex|].
           intros msg0 o0 Hm0 Ho0 Hk.
           apply in_app_or in Hm0 as [Hm0|[<-|[]]]; [eauto|].
           rewrite Ho in Ho0. injection Ho0 as <-. rewrite <- Hk in H.
           rewrite (In_mapGet _ _ _ Hnd H) in Hg. injection Hg as <-.
           exact Hnew.
        -- intros msg0 o0 Hm0 Ho0.
           apply in_app_or in Hm0 as [Hm0|[<-|[]]]; [eauto|].
           rewrite Ho in Ho0. injection Ho0 as <-.
           apply mapGet_In in Hg. now apply (in_map fst) in Hg.
    + apply (Hset (Messages.mkConv o [])). now left.
Qed.

Lemma insertSorted_perm (localeCompare : JsString -> JsString -> Z)
    (x : Messages.Conv) (l : list Messages.Conv) :
  Permutation (Messages.insertSorted localeCompare x l) (x :: l).
Proof.
  induction l as [|y l IH]; simpl; [reflexivity|].
  destruct (_ <=? _)%Z; [reflexivity|].
  rewrite IH. apply perm_swap.
Qed.

Lemma sort_perm (localeCompare : JsString -> JsString -> Z)
    (l : list Messages.Conv) :
  Permutation (Messages.sort localeCompare l) l.
Proof.
  induction l as [|x l IH]; simpl; [reflexivity|].
  rewrite insertSorted_perm. now constructor.
Qed.

Lemma keys_are_profile_ids (m : Messages.ConvMap) :
  (forall k c, In (k, c) m -> id (Messages.profile c) = k) ->
  map id (map Messages.profile (map snd m)) = map fst m.
Proof.
  induction m as [|[k c] m IH]; simpl; intros H; [reflexivity|].
  rewrite (H k c (or_introl eq_refl)), IH; [reflexivity|].
  intros k' c' Hin. apply H. now right.
Qed.

(** X19.  Whatever the locale's ordering of strings, the list of
    conversations names every partner once: an id is in the list exactly
    when some message has a joined profile with that id on the other
    side, and no id is in it twice.  With no rows at all the list is
    empty. *)
Theorem conversations_name_each_partner_once
    (localeCompare : JsString -> JsString -> Z) (userId : string)
    (data : option (list Messages.Msg)) :
  let rows := match data with Some r => r | None => [] end in
  let shown := Messages.loadConversations localeCompare userId data in
  NoDup (map id shown)
  /\ (forall i,
        In i (map id shown) <->
        exists msg o,
          In msg rows /\ Messages.other userId msg = Some o /\ id o = i)
  /\ (rows = [] -> shown = []).
Proof.
  cbv zeta. unfold Messages.loadConversations.
  set (rows := match data with Some r => r | None => [] end).
  replace (match data with
           | Some rows0 => Messages.convMapOf userId rows0
           | None => []
           end) with (Messages.convMapOf userId rows)
    by (destruct data; reflexivity).
  destruct (convMapOf_invariant userId rows) as (Hnd & Hin & Hall).
  set (m := Messages.convMapOf userId rows) in *.
  assert (Hperm : Permutation
            (map id (map Messages.profile
                       (Messages.sort localeCompare (map snd m))))
            (map fst m)).
  { rewrite <- (keys_are_profile_ids m) by (intros k c H; apply (Hin k c H)).
    do 2 apply Permutation_map. apply sort_perm. }
  split; [|split].
  - apply (Permutation_NoDup (Permutation_sym Hperm) Hnd).
  - intros i. split.
    + intros Hi. apply (Permutation_in _ Hperm) in Hi.
      apply in_map_iff in Hi as ([k c] & <- & Hkc); simpl.
      destruct (Hin k c Hkc) as (Hid & (msg & Hmsg & Ho & _) & _).
      exists msg, (Messages.profile c). auto.
    + intros (msg & o & Hmsg & Ho & <-).
      apply (Permutation_in _ (Permutation_sym Hperm)).
      eapply Hall; eassumption.
  - intros Hrows. unfold m. rewrite Hrows. reflexivity.
Qed.

(** X20.  The time kept with a conversation is that of the newest message
    exchanged with that partner: it is the [created_at] of one of those
    messages, kept together with the profile joined to that message, and
    no message with that partner has a greater [created_at]. *)
Theorem conversation_keeps_its_newest_message
    (userId : string) (rows : list Messages.Msg)
    (k : string) (c : Messages.Conv) :
  In (k, c) (Messages.convMapOf userId rows) ->
  id (Messages.profile c) = k
  /\ (exists msg,
        In msg rows
        /\ Messages.other userId msg = Some (Messages.profile c)
        /\ Messages.created_at msg = Messages.latest c)
  /\ (forall msg o,
        In msg rows -> Messages.other userId msg = Some o -> id o = k ->
        jsGt (Messages.created_at msg) (Messages.latest c) = false).
Proof.
  intros H.
  destruct (convMapOf_invariant userId rows) as (_ & Hin & _).
  exact (Hin k c H).
Qed.

Lemma conversation_keeps_its_newest_message_witness :
  Messages.convMapOf "u-1" Samples.inbox =
    [("u-2", Messages.mkConv Samples.bob (js "2025-11-23T16:40:00Z"));
     ("u-3", Messages.mkConv Samples.carol (js "2025-11-23T16:38:00Z"))]
  /\ forall msg o,
       In msg Samples.inbox -> Messages.other "u-1" msg = Some o ->
       id o = "u-2" ->
       jsGt (Messages.created_at msg) (js "2025-11-23T16:40:00Z") = false.
Proof.
  split; [reflexivity|].
  apply (conversation_keeps_its_newest_message "u-1" Samples.inbox "u-2"
           (Messages.mkConv Samples.bob (js "2025-11-23T16:40:00Z"))).
  vm_compute. tauto.
Defined.

(** * The list of groups *)

Lemma has_In (ids : list string) (k : string) :
  Groups.has ids k = true <-> In k ids.
Proof.
  unfold Groups.has. rewrite existsb_exists. split.
  - intros (x & Hin & Heq). apply String.eqb_eq in Heq. now subst.
  - intros Hin. exists k. split; [exact Hin | apply String.eqb_refl].
Qed.

Lemma visibleTo_spec (userId : string) (ids : list string) (g : Groups.Group) :
  Groups.visibleTo userId ids g = true <->
  Groups.g_type g <> "secret" \/ In (Groups.g_id g) ids
  \/ Groups.g_owner_id g = userId.
Proof.
  unfold Groups.visibleTo.
  rewrite !orb_true_iff, negb_true_iff, has_In, String.eqb_eq.
  destruct (String.eqb_spec (Groups.g_type g) "secret"); intuition congruence.
Qed.

(** X21.  [fetchGroups] shows a group exactly when it is not secret, or
    the user has joined it, or the user owns it; so a secret group of
    which the user is neither member nor owner is never shown.  Nothing
    is shown that the query did not return, every group shown carries
    [is_member] true exactly when the user has joined it, and loading is
    over.  Without a user the list is left as it is and loading stays
    on. *)
Theorem groups_shown_are_those_visible
    (u : Profile) (groupsData : option (list Groups.Group))
    (memberships : option (list string)) (st : Groups.State) :
  let rows := match groupsData with Some gs => gs | None => [] end in
  let ids := Groups.memberIds memberships in
  let st' := Groups.fetchGroups (Some u) groupsData memberships st in
  Groups.loading st' = false
  /\ (forall g,
        In g (Groups.groups st') <->
        exists g0,
          In g0 rows /\ g = Groups.withMembership ids g0
          /\ (Groups.g_type g0 <> "secret" \/ In (Groups.g_id g0) ids
              \/ Groups.g_owner_id g0 = id u))
  /\ (forall g,
        In g (Groups.groups st') -> Groups.g_type g = "secret" ->
        In (Groups.g_id g) ids \/ Groups.g_owner_id g = id u)
  /\ (forall g,
        In g (Groups.groups st') ->
        (Groups.is_member g = Some true <-> In (Groups.g_id g) ids))
  /\ Groups.fetchGroups None groupsData memberships st
       = Groups.mkState (Groups.groups st) true.
Proof.
  cbv zeta. unfold Groups.fetchGroups; simpl.
  set (rows := match groupsData with Some gs => gs | None => [] end).
  set (ids := Groups.memberIds memberships).
  assert (Hshown : forall g,
            In g (map (Groups.withMembership ids)
                      (filter (Groups.visibleTo (id u) ids) rows)) <->
            exists g0,
              In g0 rows /\ g = Groups.withMembership ids g0
              /\ (Groups.g_type g0 <> "secret" \/ In (Groups.g_id g0) ids
                  \/ Groups.g_owner_id g0 = id u)).
  { intros g. rewrite in_map_iff. split.
    - intros (g0 & <- & Hin). apply filter_In in Hin as [Hin Hv].
      apply visibleTo_spec in Hv. eauto.
    - intros (g0 & Hin & -> & Hv). exists g0. split; [reflexivity|].
      apply filter_In. split; [exact Hin | now apply visibleTo_spec]. }
  split; [reflexivity|]. split; [exact Hshown|]. split; [|split].
  - intros g Hg Hsecret. apply Hshown in Hg as (g0 & _ & -> & Hv).
    simpl in *. destruct Hv as [Hv|Hv]; [congruence | exact Hv].
  - intros g Hg. apply Hshown in Hg as (g0 & _ & -> & _). simpl.
    rewrite <- has_In. split; [intros H; now injection H | intros ->; reflexivity].
  - reflexivity.
Qed.

(** * Runs of the other components *)

Example conversations_of_the_inbox :
  Messages.loadConversations Samples.byLength "u-1" (Some Samples.inbox)
    = [Samples.bob; Samples.carol]
  /\ Messages.loadConversations Samples.byLength "u-1" None = [].
Proof. split; reflexivity. Qed.

Example groups_of_a_member :
  map Groups.g_id
      (Groups.groups
         (Groups.fetchGroups (Some Samples.me) (Some Samples.someGroups)
            (Some ["g-3"]) (Groups.mkState [] false)))
    = ["g-1"; "g-3"]
  /\ map Groups.is_member
         (Groups.groups
            (Groups.fetchGroups (Some Samples.me) (Some Samples.someGroups)
               (Some ["g-3"]) (Groups.mkState [] false)))
       = [Some false; Some true].
Proof. split; reflexivity. Qed.

Example sign_in_with_a_wrong_password :
  Auth.error
    (fst (Auth.handleSubmit
            (Auth.Rejected
               (Auth.mkThrown (Some (js "Invalid login credentials"))
                              (js "invalid login credentials")))
            Samples.signInForm))
    = js "Wrong email or password. Please try again."
  /\ Auth.error
       (fst (Auth.handleSubmit
               (Auth.Rejected (Auth.mkThrown None []))
               Samples.signInForm))
       = js "Something went wrong. Please try again.".
Proof. split; reflexivity. Qed.

(** * Sending a message *)

(** X23.  [sendMessage] inserts a row exactly when a partner is selected
    and the text or the image URL has a character that is not white
    space.  The row goes from the user to the partner, carries the text
    as typed, and its image URL is null exactly when the URL field is
    empty.  The draft is cleared only when the insert gave back a row. *)
Theorem sendMessage_needs_partner_and_content
    (userId : string) (inserted : bool) (d : Messages.Draft) :
  ((exists row, In (Messages.Insert row)
                   (snd (Messages.sendMessage userId inserted d)))
   <-> Messages.selectedUser d <> None
       /\ (Auth.hasVisibleChar (Messages.content d)
           \/ Auth.hasVisibleChar (Messages.imageUrl d)))
  /\ (forall row,
        In (Messages.Insert row)
           (snd (Messages.sendMessage userId inserted d)) ->
        exists partner,
          Messages.selectedUser d = Some partner
          /\ Messages.row_sender_id row = userId
          /\ Messages.row_recipient_id row = id partner
          /\ Messages.row_content row = Messages.content d
          /\ (Messages.row_image_url row = None <-> Messages.imageUrl d = [])
          /\ (forall url, Messages.row_image_url row = Some url ->
                          url = Messages.imageUrl d))
  /\ (inserted = false -> fst (Messages.sendMessage userId inserted d) = d).
Proof.
  unfold Messages.sendMessage.
  pose proof (trim_visible (Messages.content d)) as Hc.
  pose proof (trim_visible (Messages.imageUrl d)) as Hi.
  destruct (Messages.selectedUser d) as [partner|] eqn:Hsel; simpl.
  2:{ rewrite orb_true_r. split; [|split].
      - split; [intros (row & H); destruct H | intros (H & _); congruence].
      - intros row H; destruct H.
      - reflexivity. }
  rewrite orb_false_r.
  destruct (isEmpty (trim (Messages.content d))) eqn:Ec;
    destruct (isEmpty (trim (Messages.imageUrl d))) eqn:Ei; simpl.
  1:{ split; [|split].
      - split; [intros (row & H); destruct H|].
        intros (_ & [H|H]); [apply Hc in H | apply Hi in H]; discriminate.
      - intros row H; destruct H.
      - reflexivity. }
  all: split; [|split];
    [ split;
      [ intros _; split; [discriminate|];
        first [left; now apply Hc | right; now apply Hi]
      | intros _; eexists; apply in_or_app; right; now left ]
    | intros row H; apply in_app_or in H as [H|[H|[]]];
      [ unfold Messages.sendTypingStatus in H;
        destruct (Messages.outgoingTypingChannelRef d);
        [destruct H as [H|[]]; discriminate H | destruct H]
      | injection H as <-; exists partner; simpl;
        repeat split; try reflexivity;
        destruct (Messages.imageUrl d); simpl; congruence ]
    | intros ->; reflexivity ].
Qed.

Example sendMessage_picture_and_blanks :
  snd (Messages.sendMessage "u-1" true Samples.pictureDraft) =
    [Messages.Track false;
     Messages.Insert
       (Messages.mkRow "u-1" "u-2" [] (Some (js "https://example.com/a.png")))]
  /\ Messages.sendMessage "u-1" true Samples.blankDraft
       = (Samples.blankDraft, []).
Proof. split; reflexivity. Qed.
